(** * dex-dev-registry: [scripts/generate-registry.py]

    A shallow embedding of the registry generator: the regular expression
    used by [parse_package_filename] (with the backtracking semantics of
    Python's [re] module), the directory scan, the accumulation loop of
    [main] over an insertion-ordered dictionary, and [json.dumps] with
    [indent=2].

    Characters are the 8-bit characters of [Ascii.ascii], read as the code
    points 0..255.  On that range [\d] is exactly ['0'..'9']. *)

From Stdlib Require Import Strings.String Strings.Ascii.
From Stdlib Require Import List Bool Arith Lia.
From Stdlib Require Import Permutation Sorted.
From Stdlib Require Import Structures.OrderedTypeEx.
Import ListNotations.

Local Open Scope list_scope.
Local Open Scope string_scope.

Set Warnings "-register-all".

(* ================================================================== *)
(** ** Characters and strings *)

(** The line feed, which [.] refuses and before which [$] may match. *)
Definition newline : ascii := "010"%char.

(** The double quote, delimiter of JSON strings. *)
Definition dquote : ascii := "034"%char.

Definition is_digit (c : ascii) : bool :=
  (("0" <=? c) && (c <=? "9"))%char.

Definition not_newline (c : ascii) : bool := negb (c =? newline)%char.

(** [all_chars p s]: every character of [s] satisfies [p]. *)
Fixpoint all_chars (p : ascii -> bool) (s : string) : bool :=
  match s with
  | EmptyString => true
  | String c t => p c && all_chars p t
  end.

(** A non-empty run of decimal digits: what [\d+] consumes. *)
Definition digits (s : string) : Prop :=
  s <> "" /\ all_chars is_digit s = true.

Definition no_newline (s : string) : Prop :=
  all_chars not_newline s = true.

(** [ends_with sfx s]: [s] ends in the literal [sfx], that is, what is left
    of [s] after skipping some of its characters is [sfx] itself. *)
Fixpoint ends_with (sfx s : string) : bool :=
  (s =? sfx)%string ||
  match s with
  | EmptyString => false
  | String _ t => ends_with sfx t
  end.

(* ================================================================== *)
(** ** A backtracking matcher for the constructs the pattern uses *)

Module Re.

(** Single-character atoms. *)
Inductive charclass : Type :=
| AnyChar               (* [.]  : anything but a line feed *)
| Digit                 (* [\d] *)
| Lit (c : ascii).      (* a literal character *)

Definition accepts (cc : charclass) (c : ascii) : bool :=
  match cc with
  | AnyChar => not_newline c
  | Digit => is_digit c
  | Lit a => (a =? c)%char
  end.

Inductive regex : Type :=
| Bol                            (* [^] *)
| Eol                            (* [$] *)
| One (cc : charclass)           (* one character of the class *)
| PlusGreedy (cc : charclass)    (* [x+]  *)
| PlusLazy (cc : charclass)      (* [x+?] *)
| StarLazy (cc : charclass)      (* [x*?] *)
| Seq (r1 r2 : regex)            (* concatenation *)
| Group (i : nat) (r : regex).   (* capturing group number [i] *)

(** A literal string followed by [k]. *)
Fixpoint lits (s : string) (k : regex) : regex :=
  match s with
  | EmptyString => k
  | String c t => Seq (One (Lit c)) (lits t k)
  end.

(** Matcher state: the number of characters consumed, the text still to
    read, and the groups captured so far (most recent first). *)
Record state : Type := mkState {
  pos : nat;
  rest : string;
  groups : list (nat * string)
}.

Definition init (s : string) : state := mkState 0 s [].

(** The ways a lazy repetition can stop, fewest characters first. *)
Fixpoint lazy_from (cc : charclass) (p : nat) (s : string) : list (nat * string) :=
  (p, s) ::
  match s with
  | String c t => if accepts cc c then lazy_from cc (S p) t else []
  | EmptyString => []
  end.

(** The ways a greedy repetition can stop, most characters first. *)
Fixpoint greedy_from (cc : charclass) (p : nat) (s : string) : list (nat * string) :=
  (match s with
  | String c t => if accepts cc c then greedy_from cc (S p) t else []
  | EmptyString => []
  end ++ [(p, s)])%list.

Definition resume (st : state) (ps : nat * string) : state :=
  mkState (fst ps) (snd ps) (groups st).

(** [$] without MULTILINE: at the end of the text, or just before a line
    feed that is its last character. *)
Definition at_eol (s : string) : bool :=
  match s with
  | EmptyString => true
  | String c EmptyString => (c =? newline)%char
  | _ => false
  end.

(** [exec r st]: every way [r] can match from [st], in the order a
    backtracking matcher tries them.  The first one is the match. *)
Fixpoint exec (r : regex) (st : state) : list state :=
  match r with
  | Bol => if (pos st =? 0)%nat then [st] else []
  | Eol => if at_eol (rest st) then [st] else []
  | One cc =>
      match rest st with
      | String c t =>
          if accepts cc c then [mkState (S (pos st)) t (groups st)] else []
      | EmptyString => []
      end
  | PlusGreedy cc =>
      match rest st with
      | String c t =>
          if accepts cc c
          then map (resume st) (greedy_from cc (S (pos st)) t)
          else []
      | EmptyString => []
      end
  | PlusLazy cc =>
      match rest st with
      | String c t =>
          if accepts cc c
          then map (resume st) (lazy_from cc (S (pos st)) t)
          else []
      | EmptyString => []
      end
  | StarLazy cc => map (resume st) (lazy_from cc (pos st) (rest st))
  | Seq r1 r2 => flat_map (exec r2) (exec r1 st)
  | Group i r1 =>
      map (fun st' =>
             mkState (pos st') (rest st')
               ((i, substring 0 (pos st' - pos st) (rest st)) :: groups st'))
          (exec r1 st)
  end.

(** [re.match]: anchored at the start of the text; the first way found. *)
Definition match_ (r : regex) (s : string) : option state :=
  hd_error (exec r (init s)).

(** [m.group(i)]. *)
Fixpoint lookup (i : nat) (g : list (nat * string)) : option string :=
  match g with
  | [] => None
  | (j, s) :: g' => if (i =? j)%nat then Some s else lookup i g'
  end.

Definition group (i : nat) (m : state) : option string := lookup i (groups m).

End Re.

(* ================================================================== *)
(** ** [parse_package_filename] *)

(** [\d+\.\d+\.\d+.*?] *)
Definition version_re : Re.regex :=
  Re.Seq (Re.PlusGreedy Re.Digit)
   (Re.Seq (Re.One (Re.Lit "."))
    (Re.Seq (Re.PlusGreedy Re.Digit)
     (Re.Seq (Re.One (Re.Lit "."))
      (Re.Seq (Re.PlusGreedy Re.Digit)
              (Re.StarLazy Re.AnyChar))))).

(** [(.+?)] *)
Definition name_re : Re.regex := Re.Group 1 (Re.PlusLazy Re.AnyChar).

(** [-(\d+\.\d+\.\d+.*?)\.tar\.gz$] *)
Definition tail_re : Re.regex :=
  Re.Seq (Re.One (Re.Lit "-"))
   (Re.Seq (Re.Group 2 version_re)
           (Re.lits ".tar.gz" Re.Eol)).

(** [^(.+?)-(\d+\.\d+\.\d+.*?)\.tar\.gz$] *)
Definition pattern : Re.regex := Re.Seq Re.Bol (Re.Seq name_re tail_re).

(** The function returns a pair: both components are strings on a match
    and both are [None] otherwise. *)
Definition parse_package_filename (filename : string)
  : option string * option string :=
  match Re.match_ pattern filename with
  | Some m => (Re.group 1 m, Re.group 2 m)
  | None => (None, None)
  end.

(* ================================================================== *)
(** ** Python values and insertion-ordered dictionaries *)

(** The values the script builds and hands to [json.dumps]. *)
Inductive pyval : Type :=
| PNone
| PStr (s : string)
| PList (l : list pyval)
| PDict (d : list (string * pyval)).

(** A [dict] with string keys: an association list in insertion order,
    which is the order [json.dumps] writes the items in. *)
Definition dict : Type := list (string * pyval).

(** [d.get(k)]; [None] stands for a missing key. *)
Fixpoint dict_get (k : string) (d : dict) : option pyval :=
  match d with
  | [] => None
  | (k', v) :: d' => if (k =? k')%string then Some v else dict_get k d'
  end.

(** [k in d] *)
Definition dict_mem (k : string) (d : dict) : bool :=
  match dict_get k d with Some _ => true | None => false end.

(** [d[k] = v]: an existing key keeps its place, a new one goes last. *)
Fixpoint dict_set (k : string) (v : pyval) (d : dict) : dict :=
  match d with
  | [] => [(k, v)]
  | (k', v') :: d' =>
      if (k =? k')%string then (k, v) :: d' else (k', v') :: dict_set k v d'
  end.

Definition keys (d : dict) : list string := map fst d.

(* ================================================================== *)
(** ** The loop of [main] *)

(** The entry written when a name is met for the first time
    ([{"versions": [], "latest": version}]). *)
Definition new_entry (version : string) : pyval :=
  PDict [("versions", PList []); ("latest", PStr version)].

(** [if name not in packages: packages[name] = {...}] *)
Definition ensure_entry (name version : string) (packages : dict) : dict :=
  if dict_mem name packages then packages
  else dict_set name (new_entry version) packages.

(** [packages[name]["versions"].append(version)].  [None] is a raised
    [KeyError], [TypeError] or [AttributeError]. *)
Definition append_version (name version : string) (packages : dict)
  : option dict :=
  match dict_get name packages with
  | Some (PDict e) =>
      match dict_get "versions" e with
      | Some (PList vs) =>
          Some (dict_set name
                  (PDict (dict_set "versions" (PList ((vs ++ [PStr version])%list)) e))
                  packages)
      | _ => None
      end
  | _ => None
  end.

(** [packages[name]["latest"] = version] *)
Definition set_latest (name version : string) (packages : dict)
  : option dict :=
  match dict_get name packages with
  | Some (PDict e) =>
      Some (dict_set name (PDict (dict_set "latest" (PStr version) e)) packages)
  | _ => None
  end.

(** What the loop does with one parsed pair. *)
Definition record_version (name version : string) (packages : dict)
  : option dict :=
  match append_version name version (ensure_entry name version packages) with
  | Some packages' => set_latest name version packages'
  | None => None
  end.

(** One iteration of the loop, for the archive called [tarball_name].
    [if name and version] holds for strings that are not empty. *)
Definition process (packages : dict) (tarball_name : string) : option dict :=
  match parse_package_filename tarball_name with
  | (Some name, Some version) =>
      if negb (name =? "")%string && negb (version =? "")%string
      then record_version name version packages
      else Some packages
  | _ => Some packages
  end.

(** The whole loop over the archives in the order given. *)
Definition run_loop (tarballs : list string) (packages : dict) : option dict :=
  fold_left
    (fun acc tarball_name =>
       match acc with
       | Some pk => process pk tarball_name
       | None => None
       end)
    tarballs (Some packages).

(* ================================================================== *)
(** ** The directory scan *)

(** [build_dir.glob("*.tar.gz")]: the entries of the directory whose name
    ends in [.tar.gz], in the order the system lists them. *)
Definition glob_tar_gz (entries : list string) : list string :=
  filter (ends_with ".tar.gz") entries.

(** [sorted]: all paths share their parent, so they compare as their names
    do, character by character on code points. *)
Fixpoint insert_sorted (x : string) (l : list string) : list string :=
  match l with
  | [] => [x]
  | y :: l' => if (x <=? y)%string then x :: l else y :: insert_sorted x l'
  end.

Fixpoint sorted (l : list string) : list string :=
  match l with
  | [] => []
  | x :: l' => insert_sorted x (sorted l')
  end.

(* ================================================================== *)
(** ** [json.dumps(..., indent=2)] *)

Definition backslash : ascii := "092"%char.

Definition hex_digit (n : nat) : ascii :=
  if (n <? 10)%nat then ascii_of_nat (48 + n) else ascii_of_nat (87 + n).

(** The escape of one character under [ensure_ascii=True]. *)
Definition escape_char (c : ascii) : string :=
  let n := nat_of_ascii c in
  if (c =? dquote)%char then String backslash (String dquote "")
  else if (c =? backslash)%char then String backslash (String backslash "")
  else if (n =? 10)%nat then String backslash "n"
  else if (n =? 13)%nat then String backslash "r"
  else if (n =? 9)%nat then String backslash "t"
  else if (n =? 8)%nat then String backslash "b"
  else if (n =? 12)%nat then String backslash "f"
  else if ((32 <=? n) && (n <=? 126))%nat then String c ""
  else String backslash
         ("u00" ++ String (hex_digit (n / 16)) (String (hex_digit (n mod 16)) "")).

Fixpoint escape (s : string) : string :=
  match s with
  | EmptyString => ""
  | String c t => escape_char c ++ escape t
  end.

Definition encode_string (s : string) : string :=
  String dquote (escape s ++ String dquote "").

Fixpoint spaces (n : nat) : string :=
  match n with
  | O => ""
  | S n' => String " " (spaces n')
  end.

(** A line break followed by the indentation of nesting depth [level]. *)
Definition newline_indent (level : nat) : string :=
  String newline (spaces (2 * level)).

Fixpoint dumps_at (level : nat) (v : pyval) : string :=
  match v with
  | PNone => "null"
  | PStr s => encode_string s
  | PList l =>
      match l with
      | [] => "[]"
      | _ =>
          "[" ++
          (fix items (first : bool) (l : list pyval) : string :=
             match l with
             | [] => ""
             | x :: l' =>
                 (if first then "" else ",") ++ newline_indent (S level) ++
                 dumps_at (S level) x ++ items false l'
             end) true l ++
          newline_indent level ++ "]"
      end
  | PDict d =>
      match d with
      | [] => "{}"
      | _ =>
          "{" ++
          (fix items (first : bool) (d : list (string * pyval)) : string :=
             match d with
             | [] => ""
             | (k, x) :: d' =>
                 (if first then "" else ",") ++ newline_indent (S level) ++
                 encode_string k ++ ": " ++ dumps_at (S level) x ++
                 items false d'
             end) true d ++
          newline_indent level ++ "}"
      end
  end.

Definition dumps (v : pyval) : string := dumps_at 0 v.

(** [print]: the text and a line feed, on standard output. *)
Definition print (s : string) : string := s ++ String newline "".

(* ================================================================== *)
(** ** [main] *)

(** The file system as [main] sees it: [None] when [build] does not
    exist, otherwise the names of its entries in listing order. *)
Definition build_dir : Type := option (list string).

(** The value of [packages] when the loop ends. *)
Definition packages_of (entries : list string) : option dict :=
  run_loop (sorted (glob_tar_gz entries)) [].

(** What [main] prints; [None] would be an uncaught exception. *)
Definition main (build : build_dir) : option string :=
  match build with
  | None => Some (print (dumps (PDict [("packages", PDict [])])))
  | Some entries =>
      match packages_of entries with
      | Some packages =>
          Some (print (dumps (PDict [("packages", PDict packages)])))
      | None => None
      end
  end.

(* ================================================================== *)
(** ** Vocabulary for the statements *)

(** From [st] the matcher read the text [a] and reached [st'], capturing
    nothing on the way. *)
Definition consumes (st : Re.state) (a : string) (st' : Re.state) : Prop :=
  Re.rest st = a ++ Re.rest st' /\
  Re.pos st' = Re.pos st + String.length a /\
  Re.groups st' = Re.groups st.

(** [s] begins with a token [\d+\.\d+\.\d+]. *)
Definition token_prefix (s : string) : Prop :=
  exists d1 d2 d3 r,
    digits d1 /\ digits d2 /\ digits d3 /\
    s = d1 ++ "." ++ d2 ++ "." ++ d3 ++ r.

(** What group 2 can hold: the token, then characters other than line
    feeds. *)
Definition version_like (v : string) : Prop :=
  exists d1 d2 d3 sfx,
    digits d1 /\ digits d2 /\ digits d3 /\ no_newline sfx /\
    v = d1 ++ "." ++ d2 ++ "." ++ d3 ++ sfx.

(** [f] reads as name, dash, version and [.tar.gz], up to what [$]
    tolerates after it. *)
Definition splits_as (f n v : string) : Prop :=
  n <> "" /\ no_newline n /\ version_like v /\
  exists tl, Re.at_eol tl = true /\ f = n ++ "-" ++ v ++ ".tar.gz" ++ tl.

Fixpoint last_char (s : string) : option ascii :=
  match s with
  | EmptyString => None
  | String c EmptyString => Some c
  | String _ t => last_char t
  end.

(** The rest of the pattern, tried after group 1 has stopped [fst ps]
    characters into [f] with [snd ps] still to read. *)
Definition after_name (f : string) (ps : nat * string) : list Re.state :=
  Re.exec tail_re (Re.mkState (fst ps) (snd ps) [(1, substring 0 (fst ps) f)]).

(** [e[k]] for a value [e] that should be a dictionary. *)
Definition field (k : string) (e : pyval) : option pyval :=
  match e with
  | PDict d => dict_get k d
  | _ => None
  end.

(** The pair the loop records for an archive name, if it records one. *)
Definition parsed (tarball_name : string) : option (string * string) :=
  match parse_package_filename tarball_name with
  | (Some name, Some version) =>
      if negb (name =? "")%string && negb (version =? "")%string
      then Some (name, version)
      else None
  | _ => None
  end.

(** The pairs recorded for a sequence of archive names, in that order. *)
Definition parsed_pairs (tarballs : list string) : list (string * string) :=
  flat_map (fun f => match parsed f with Some p => [p] | None => [] end) tarballs.

(** The versions paired with [name], in order and with repetitions. *)
Definition versions_for (name : string) (pairs : list (string * string))
  : list string :=
  map snd (filter (fun p => (fst p =? name)%string) pairs).

(** The entry that lists the versions [vs] and names the last as latest. *)
Definition entry_of (vs : list string) : pyval :=
  PDict [("versions", PList (map PStr vs)); ("latest", PStr (last vs ""))].

(** [packages] holds, for each name, exactly the versions recorded for it. *)
Definition reflects (packages : dict) (pairs : list (string * string)) : Prop :=
  forall name,
    dict_get name packages =
    match versions_for name pairs with
    | [] => None
    | vs => Some (entry_of vs)
    end.

(** Ascending order on names. *)
Definition ascending (l : list string) : Prop :=
  StronglySorted (fun a b => (a <=? b)%string = true) l.

(** The names met so far, each listed once, in the order of first
    meeting. *)
Definition add_name (seen : list string) (name : string) : list string :=
  if existsb (String.eqb name) seen then seen else (seen ++ [name])%list.

Definition first_seen (names : list string) : list string :=
  fold_left add_name names [].


(** The text printed for a registry without packages. *)
Definition empty_registry_text : string :=
  "{" ++ String newline
    ("  " ++ String dquote ("packages" ++ String dquote (": {}" ++ String newline
    ("}" ++ String newline "")))).

(* ================================================================== *)
(** ** The code on concrete inputs *)

Example parse_base_dev :
  parse_package_filename "base-dev-1.0.0.tar.gz" = (Some "base-dev", Some "1.0.0").
Proof. reflexivity. Qed.

Example parse_rc :
  parse_package_filename "tools-0.9.1-rc1.tar.gz" = (Some "tools", Some "0.9.1-rc1").
Proof. reflexivity. Qed.

Example parse_inner_version :
  parse_package_filename "a-1.2.3-b-4.5.6.tar.gz" = (Some "a", Some "1.2.3-b-4.5.6").
Proof. reflexivity. Qed.

Example parse_double_ext :
  parse_package_filename "a-1.0.0.tar.gz.tar.gz" = (Some "a", Some "1.0.0.tar.gz").
Proof. reflexivity. Qed.

Example parse_no_version :
  parse_package_filename "readme.tar.gz" = (None, None).
Proof. reflexivity. Qed.

Example parse_trailing_newline :
  parse_package_filename ("a-1.0.0.tar.gz" ++ String newline "")
  = (Some "a", Some "1.0.0").
Proof. reflexivity. Qed.

(* ================================================================== *)
(** ** Facts about strings *)

Section StringFacts.

Lemma append_nil_r (s : string) : s ++ "" = s.
Proof. induction s as [|c s IH]; simpl; [reflexivity | now rewrite IH]. Qed.

Lemma append_assoc (a b c : string) : (a ++ b) ++ c = a ++ b ++ c.
Proof. induction a as [|x a IH]; simpl; [reflexivity | now rewrite IH]. Qed.

Lemma length_append (a b : string) :
  String.length (a ++ b) = String.length a + String.length b.
Proof. induction a as [|x a IH]; simpl; [reflexivity | now rewrite IH]. Qed.

Lemma append_inv_head (a b c : string) : a ++ b = a ++ c -> b = c.
Proof.
  induction a as [|x a IH]; simpl; intros H; [exact H|].
  injection H as H. now apply IH.
Qed.

Lemma substring_0_append (a b : string) :
  substring 0 (String.length a) (a ++ b) = a.
Proof.
  induction a as [|x a IH]; simpl.
  - now destruct b.
  - now rewrite IH.
Qed.

Lemma all_chars_append (p : ascii -> bool) (a b : string) :
  all_chars p (a ++ b) = all_chars p a && all_chars p b.
Proof.
  induction a as [|x a IH]; simpl; [reflexivity|].
  now rewrite IH, andb_assoc.
Qed.

(** A run of characters satisfying [p] that is a prefix of [b ++ c ++ r],
    where [p] refuses the first character of [c], lies within [b]. *)
Lemma run_within (p : ascii -> bool) (t r b r' : string) (c : ascii) :
  all_chars p t = true -> p c = false ->
  t ++ r = b ++ String c r' ->
  exists r'', b = t ++ r''.
Proof.
  revert b. induction t as [|x t IH]; simpl; intros b Ht Hc H.
  - now exists b.
  - apply andb_prop in Ht as [Hx Ht].
    destruct b as [|y b]; simpl in H; injection H as Hxy H.
    + subst x. congruence.
    + subst y. destruct (IH b Ht Hc H) as [r'' ->]. now exists r''.
Qed.

Lemma append_inv_tail (a b c : string) : a ++ c = b ++ c -> a = b.
Proof.
  revert b. induction a as [|x a IH]; intros [|y b] H; simpl in H.
  - reflexivity.
  - apply (f_equal String.length) in H. simpl in H. rewrite length_append in H. lia.
  - apply (f_equal String.length) in H. simpl in H. rewrite length_append in H. lia.
  - injection H as -> H. f_equal. now apply IH.
Qed.

Lemma last_char_append (a t : string) (x : ascii) :
  last_char (a ++ String x t) = last_char (String x t).
Proof.
  induction a as [|y a IH]; [reflexivity|].
  simpl append. rewrite <- IH. simpl.
  destruct (a ++ String x t) eqn:E; [|reflexivity].
  destruct a; discriminate.
Qed.

(** Where the version ends is fixed by the end of the file name. *)
Lemma tail_unique (v v' tl tl' : string) :
  v ++ ".tar.gz" ++ tl = v' ++ ".tar.gz" ++ tl' ->
  Re.at_eol tl = true -> Re.at_eol tl' = true ->
  v = v' /\ tl = tl'.
Proof.
  intros H E E'.
  assert (Hl : last_char (".tar.gz" ++ tl) = last_char (".tar.gz" ++ tl')).
  { pose proof (f_equal last_char H) as L. simpl append in L.
    now rewrite !(last_char_append _ _ "."%char) in L. }
  assert (tl = tl') as <-.
  { destruct tl as [|c [|? ?]]; try discriminate;
    destruct tl' as [|c' [|? ?]]; try discriminate; simpl in *.
    - reflexivity.
    - apply Ascii.eqb_eq in E'. subst c'. discriminate.
    - apply Ascii.eqb_eq in E. subst c. discriminate.
    - congruence. }
  split; [|reflexivity]. now apply append_inv_tail in H.
Qed.

End StringFacts.

(* ================================================================== *)
(** ** The matcher: which states each construct reaches *)

Section MatcherFacts.

Lemma consumes_refl (st : Re.state) : consumes st "" st.
Proof. unfold consumes; simpl. repeat split. lia. Qed.

Lemma consumes_trans (st m st' : Re.state) (a b : string) :
  consumes st a m -> consumes m b st' -> consumes st (a ++ b) st'.
Proof.
  intros (R1 & P1 & G1) (R2 & P2 & G2). unfold consumes.
  rewrite append_assoc, <- R2, length_append. repeat split; [assumption | lia | congruence].
Qed.

Lemma in_lazy_from (cc : Re.charclass) (s : string) :
  forall p p' s',
    In (p', s') (Re.lazy_from cc p s) <->
    exists a, s = a ++ s' /\ p' = p + String.length a /\
              all_chars (Re.accepts cc) a = true.
Proof.
  induction s as [|c t IH]; intros p p' s'; simpl.
  - split.
    + intros [H | []]. injection H as <- <-. exists "". simpl. repeat split. lia.
    + intros (a & Ha & -> & _). destruct a; [|discriminate].
      simpl in Ha. subst s'. left. f_equal. simpl. lia.
  - split.
    + intros [H | H].
      * injection H as <- <-. exists "". simpl. repeat split. lia.
      * destruct (Re.accepts cc c) eqn:Hc; [|contradiction].
        apply IH in H as (a & -> & -> & Ha).
        exists (String c a). simpl. rewrite Hc, Ha. repeat split. lia.
    + intros (a & Ha & -> & Hall). destruct a as [|x a]; simpl in *.
      * subst s'. left. f_equal. lia.
      * injection Ha as <- ->. apply andb_prop in Hall as [Hx Hall].
        right. rewrite Hx. apply IH. exists a. repeat split; [lia | assumption].
Qed.

Lemma in_greedy_from (cc : Re.charclass) (s : string) :
  forall p p' s',
    In (p', s') (Re.greedy_from cc p s) <->
    exists a, s = a ++ s' /\ p' = p + String.length a /\
              all_chars (Re.accepts cc) a = true.
Proof.
  induction s as [|c t IH]; intros p p' s'; simpl.
  - split.
    + intros [H | []]. injection H as <- <-. exists "". simpl. repeat split. lia.
    + intros (a & Ha & -> & _). destruct a; [|discriminate].
      simpl in Ha. subst s'. left. f_equal. simpl. lia.
  - rewrite in_app_iff. split.
    + intros [H | [H | []]].
      * destruct (Re.accepts cc c) eqn:Hc; [|contradiction].
        apply IH in H as (a & -> & -> & Ha).
        exists (String c a). simpl. rewrite Hc, Ha. repeat split. lia.
      * injection H as <- <-. exists "". simpl. repeat split. lia.
    + intros (a & Ha & -> & Hall). destruct a as [|x a]; simpl in *.
      * subst s'. right. left. f_equal. lia.
      * injection Ha as <- ->. apply andb_prop in Hall as [Hx Hall].
        left. rewrite Hx. apply IH. exists a. repeat split; [lia | assumption].
Qed.

Lemma state_eta (st : Re.state) :
  st = Re.mkState (Re.pos st) (Re.rest st) (Re.groups st).
Proof. now destruct st. Qed.

Lemma in_resume (st st' : Re.state) (l : list (nat * string)) :
  In st' (map (Re.resume st) l) <->
  In (Re.pos st', Re.rest st') l /\ Re.groups st' = Re.groups st.
Proof.
  rewrite in_map_iff. split.
  - intros ([p s] & <- & H). now split.
  - intros [H G]. exists (Re.pos st', Re.rest st'). split; [|assumption].
    unfold Re.resume; simpl. rewrite <- G. symmetry. apply state_eta.
Qed.

Lemma in_exec_one (cc : Re.charclass) (st st' : Re.state) :
  In st' (Re.exec (Re.One cc) st) <->
  exists c, Re.accepts cc c = true /\ consumes st (String c "") st'.
Proof.
  unfold consumes. simpl. split.
  - destruct (Re.rest st) as [|c t]; [intros []|].
    destruct (Re.accepts cc c) eqn:Hc; [|intros []].
    intros [<- | []]. exists c. simpl. repeat split; [assumption | lia].
  - intros (c & Hc & R & P & G). rewrite R, Hc. left.
    rewrite (state_eta st'). f_equal; [lia | congruence].
Qed.

Lemma in_exec_star_lazy (cc : Re.charclass) (st st' : Re.state) :
  In st' (Re.exec (Re.StarLazy cc) st) <->
  exists a, all_chars (Re.accepts cc) a = true /\ consumes st a st'.
Proof.
  unfold consumes. simpl. rewrite in_resume, in_lazy_from. split.
  - intros [(a & R & P & A) G]. now exists a.
  - intros (a & A & R & P & G). split; [now exists a | assumption].
Qed.

Lemma in_exec_plus_lazy (cc : Re.charclass) (st st' : Re.state) :
  In st' (Re.exec (Re.PlusLazy cc) st) <->
  exists a, a <> "" /\ all_chars (Re.accepts cc) a = true /\ consumes st a st'.
Proof.
  unfold consumes. simpl. split.
  - destruct (Re.rest st) as [|c t]; [intros []|].
    destruct (Re.accepts cc c) eqn:Hc; [|intros []].
    rewrite in_resume, in_lazy_from. intros [(a & -> & P & A) G].
    exists (String c a). simpl. rewrite Hc, A.
    repeat split; [discriminate | lia | assumption].
  - intros (a & Hne & A & R & P & G). destruct a as [|c a]; [congruence|].
    simpl in *. apply andb_prop in A as [Hc A]. rewrite R, Hc.
    rewrite in_resume, in_lazy_from. split; [|assumption].
    exists a. repeat split; [lia | assumption].
Qed.

Lemma in_exec_plus_greedy (cc : Re.charclass) (st st' : Re.state) :
  In st' (Re.exec (Re.PlusGreedy cc) st) <->
  exists a, a <> "" /\ all_chars (Re.accepts cc) a = true /\ consumes st a st'.
Proof.
  unfold consumes. simpl. split.
  - destruct (Re.rest st) as [|c t]; [intros []|].
    destruct (Re.accepts cc c) eqn:Hc; [|intros []].
    rewrite in_resume, in_greedy_from. intros [(a & -> & P & A) G].
    exists (String c a). simpl. rewrite Hc, A.
    repeat split; [discriminate | lia | assumption].
  - intros (a & Hne & A & R & P & G). destruct a as [|c a]; [congruence|].
    simpl in *. apply andb_prop in A as [Hc A]. rewrite R, Hc.
    rewrite in_resume, in_greedy_from. split; [|assumption].
    exists a. repeat split; [lia | assumption].
Qed.

Lemma in_exec_seq (r1 r2 : Re.regex) (st st' : Re.state) :
  In st' (Re.exec (Re.Seq r1 r2) st) <->
  exists m, In m (Re.exec r1 st) /\ In st' (Re.exec r2 m).
Proof. simpl. apply in_flat_map. Qed.

Lemma in_exec_group (i : nat) (r : Re.regex) (st st' : Re.state) :
  In st' (Re.exec (Re.Group i r) st) <->
  exists m, In m (Re.exec r st) /\
    st' = Re.mkState (Re.pos m) (Re.rest m)
            ((i, substring 0 (Re.pos m - Re.pos st) (Re.rest st)) :: Re.groups m).
Proof.
  simpl. rewrite in_map_iff. split; intros (m & H1 & H2); exists m; now split.
Qed.

Lemma at_eol_iff (s : string) :
  Re.at_eol s = true <-> s = "" \/ s = String newline "".
Proof.
  destruct s as [|c [|d t]]; simpl; split; try tauto; try discriminate.
  - intros H. apply Ascii.eqb_eq in H. subst. now right.
  - intros [H | H]; [discriminate|]. injection H as ->. apply Ascii.eqb_refl.
  - intros [H | H]; discriminate.
Qed.

Lemma in_exec_eol (st st' : Re.state) :
  In st' (Re.exec Re.Eol st) <-> st' = st /\ Re.at_eol (Re.rest st) = true.
Proof.
  simpl. destruct (Re.at_eol (Re.rest st)); simpl; split.
  - intros [<- | []]. now split.
  - intros [-> _]. now left.
  - intros [].
  - intros [_ H]. discriminate.
Qed.

(** A literal string consumes itself and nothing else. *)
Lemma in_exec_lits (s : string) (k : Re.regex) :
  forall st st',
    In st' (Re.exec (Re.lits s k) st) <->
    exists m, consumes st s m /\ In st' (Re.exec k m).
Proof.
  induction s as [|c t IH]; intros st st'.
  - simpl Re.lits. split.
    + intros H. exists st. split; [apply consumes_refl | assumption].
    + intros (m & (R & P & G) & H). simpl in R.
      replace st with m; [assumption|].
      destruct m, st; simpl in *. f_equal; [lia | congruence..].
  - simpl Re.lits. rewrite in_exec_seq. split.
    + intros (m1 & H1 & H2). apply in_exec_one in H1 as (x & Hx & C1).
      simpl in Hx. apply Ascii.eqb_eq in Hx. subst x.
      apply IH in H2 as (m & C2 & H). exists m. split; [|assumption].
      exact (consumes_trans _ _ _ _ _ C1 C2).
    + intros (m & (R & P & G) & H). simpl in R, P.
      exists (Re.mkState (S (Re.pos st)) (t ++ Re.rest m) (Re.groups st)). split.
      * apply in_exec_one. exists c. split; [simpl; apply Ascii.eqb_refl|].
        unfold consumes; simpl. repeat split; [assumption | lia].
      * apply IH. exists m. split; [|assumption].
        unfold consumes; simpl. repeat split; [lia | assumption].
Qed.

Lemma consumes_split (st st' : Re.state) (a b : string) :
  consumes st (a ++ b) st' ->
  exists m, consumes st a m /\ consumes m b st'.
Proof.
  intros (R & P & G).
  exists (Re.mkState (Re.pos st + String.length a) (b ++ Re.rest st') (Re.groups st)).
  unfold consumes; simpl. rewrite length_append in P. rewrite append_assoc in R.
  repeat split; [assumption | lia | assumption].
Qed.

Lemma accepts_dot : Re.accepts (Re.Lit ".") "." = true.
Proof. reflexivity. Qed.

Lemma accepts_lit (a c : ascii) : Re.accepts (Re.Lit a) c = true -> c = a.
Proof. unfold Re.accepts. intros H. apply Ascii.eqb_eq in H. now subst. Qed.

Lemma in_exec_version (st st' : Re.state) :
  In st' (Re.exec version_re st) <->
  exists v, version_like v /\ consumes st v st'.
Proof.
  unfold version_re. split.
  - intros H.
    apply in_exec_seq in H as (m1 & H1 & H).
    apply in_exec_plus_greedy in H1 as (d1 & N1 & A1 & C1).
    apply in_exec_seq in H as (m2 & H2 & H).
    apply in_exec_one in H2 as (x & Hx & C2).
    apply accepts_lit in Hx; subst x.
    apply in_exec_seq in H as (m3 & H3 & H).
    apply in_exec_plus_greedy in H3 as (d2 & N2 & A2 & C3).
    apply in_exec_seq in H as (m4 & H4 & H).
    apply in_exec_one in H4 as (y & Hy & C4).
    apply accepts_lit in Hy; subst y.
    apply in_exec_seq in H as (m5 & H5 & H).
    apply in_exec_plus_greedy in H5 as (d3 & N3 & A3 & C5).
    apply in_exec_star_lazy in H as (sfx & A4 & C6).
    exists (d1 ++ "." ++ d2 ++ "." ++ d3 ++ sfx). split.
    + exists d1, d2, d3, sfx. unfold digits, no_newline. now repeat split.
    + pose proof (consumes_trans _ _ _ _ _ C5 C6) as K5.
      pose proof (consumes_trans _ _ _ _ _ C4 K5) as K4.
      pose proof (consumes_trans _ _ _ _ _ C3 K4) as K3.
      pose proof (consumes_trans _ _ _ _ _ C2 K3) as K2.
      exact (consumes_trans _ _ _ _ _ C1 K2).
  - intros (v & (d1 & d2 & d3 & sfx & [N1 A1] & [N2 A2] & [N3 A3] & A4 & ->) & C).
    apply consumes_split in C as (m1 & C1 & C).
    apply (consumes_split _ _ (String "." "")) in C as (m2 & C2 & C).
    apply consumes_split in C as (m3 & C3 & C).
    apply (consumes_split _ _ (String "." "")) in C as (m4 & C4 & C).
    apply consumes_split in C as (m5 & C5 & C6).
    apply in_exec_seq. exists m1. split.
    { apply in_exec_plus_greedy. now exists d1. }
    apply in_exec_seq. exists m2. split.
    { apply in_exec_one. exists "."%char. split; [apply accepts_dot | assumption]. }
    apply in_exec_seq. exists m3. split.
    { apply in_exec_plus_greedy. now exists d2. }
    apply in_exec_seq. exists m4. split.
    { apply in_exec_one. exists "."%char. split; [apply accepts_dot | assumption]. }
    apply in_exec_seq. exists m5. split.
    { apply in_exec_plus_greedy. now exists d3. }
    apply in_exec_star_lazy. now exists sfx.
Qed.

(** The states [-(\d+\.\d+\.\d+.*?)\.tar\.gz$] reaches. *)
Lemma in_exec_tail (st st' : Re.state) :
  In st' (Re.exec tail_re st) <->
  exists v tl,
    version_like v /\ Re.at_eol tl = true /\
    Re.rest st = "-" ++ v ++ ".tar.gz" ++ tl /\
    st' = Re.mkState (Re.pos st + String.length ("-" ++ v ++ ".tar.gz")) tl
            ((2, v) :: Re.groups st).
Proof.
  unfold tail_re. split.
  - intros H.
    apply in_exec_seq in H as (m1 & H1 & H).
    apply in_exec_one in H1 as (x & Hx & (R1 & P1 & G1)).
    apply accepts_lit in Hx; subst x.
    apply in_exec_seq in H as (m2 & H2 & H).
    apply in_exec_group in H2 as (m & Hm & ->).
    apply in_exec_version in Hm as (v & Hv & (R2 & P2 & G2)).
    apply in_exec_lits in H as (m3 & (R3 & P3 & G3) & H).
    apply in_exec_eol in H as [-> E].
    simpl in R3, P3, G3.
    exists v, (Re.rest m3). repeat split; [assumption.. | | ].
    + rewrite R1, R2. simpl. now rewrite R3.
    + rewrite (state_eta m3) at 1. f_equal.
      * rewrite P3, P2, P1. simpl. rewrite !length_append. simpl. lia.
      * rewrite G3. f_equal; [|congruence]. f_equal.
        rewrite R2. replace (Re.pos m - Re.pos m1) with (String.length v) by lia.
        apply substring_0_append.
  - intros (v & tl & Hv & E & R & ->).
    set (m1 := Re.mkState (S (Re.pos st)) (v ++ ".tar.gz" ++ tl) (Re.groups st)).
    set (m := Re.mkState (S (Re.pos st) + String.length v) (".tar.gz" ++ tl) (Re.groups st)).
    apply in_exec_seq. exists m1. split.
    { apply in_exec_one. exists "-"%char. split; [reflexivity|].
      unfold consumes, m1; simpl. repeat split; [assumption | lia]. }
    apply in_exec_seq.
    exists (Re.mkState (Re.pos m) (Re.rest m)
              ((2, substring 0 (Re.pos m - Re.pos m1) (Re.rest m1)) :: Re.groups m)).
    split.
    { apply in_exec_group. exists m. split; [|reflexivity].
      apply in_exec_version. exists v. split; [assumption|].
      unfold consumes, m1, m; simpl. now repeat split. }
    apply in_exec_lits.
    exists (Re.mkState (S (Re.pos st) + String.length v + 7) tl
              ((2, v) :: Re.groups st)).
    split; [|apply in_exec_eol; split; [|exact E]].
    + unfold consumes, m, m1; simpl.
      replace (Re.pos st + String.length v - Re.pos st) with (String.length v) by lia.
      rewrite substring_0_append. now repeat split.
    + f_equal. rewrite !length_append. simpl. lia.
Qed.

End MatcherFacts.

(* ================================================================== *)
(** ** The first way found *)

Section FirstMatch.

Lemma hd_error_in {A : Type} (l : list A) (x : A) :
  hd_error l = Some x -> In x l.
Proof. destruct l; simpl; [discriminate|]. intros [= ->]. now left. Qed.

Lemma nil_or_in {A : Type} (l : list A) : l = [] \/ exists x, In x l.
Proof. destruct l as [|x l]; [now left | right; exists x; now left]. Qed.

Lemma flat_map_map {A B C : Type} (f : A -> B) (g : B -> list C) (l : list A) :
  flat_map g (map f l) = flat_map (fun x => g (f x)) l.
Proof. induction l as [|x l IH]; simpl; [reflexivity | now rewrite IH]. Qed.

(** A lazy repetition of the class [cc], followed by whatever [K] stands
    for. *)
Context {B : Type} (K : nat * string -> list B) (cc : Re.charclass).

(** The repetition stops at the first length for which [K] succeeds. *)
Lemma lazy_first_hit :
  forall a p s y l,
    all_chars (Re.accepts cc) a = true ->
    (forall a1 a2, a = a1 ++ a2 -> a2 <> "" ->
                   K (p + String.length a1, a2 ++ s) = []) ->
    K (p + String.length a, s) = y :: l ->
    hd_error (flat_map K (Re.lazy_from cc p (a ++ s))) = Some y.
Proof.
  induction a as [|c a IH]; intros p s y l Hall Hearly Hhit.
  - simpl in Hhit. rewrite Nat.add_0_r in Hhit.
    destruct s; simpl; rewrite Hhit; reflexivity.
  - simpl in Hall. apply andb_prop in Hall as [Hc Hall].
    simpl. rewrite Hc.
    pose proof (Hearly "" (String c a) eq_refl) as H0.
    simpl in H0. rewrite Nat.add_0_r in H0. rewrite H0 by discriminate.
    simpl. apply (IH (S p) s y l Hall).
    + intros a1 a2 E Hne. specialize (Hearly (String c a1) a2).
      simpl in Hearly. replace (S p + String.length a1) with (p + S (String.length a1)) by lia.
      apply Hearly; [now rewrite E | assumption].
    + simpl in Hhit. now replace (S p + String.length a) with (p + S (String.length a)) by lia.
Qed.

Lemma lazy_first_hit_inv :
  forall t p y,
    hd_error (flat_map K (Re.lazy_from cc p t)) = Some y ->
    exists a s,
      t = a ++ s /\ all_chars (Re.accepts cc) a = true /\
      (forall a1 a2, a = a1 ++ a2 -> a2 <> "" ->
                     K (p + String.length a1, a2 ++ s) = []) /\
      hd_error (K (p + String.length a, s)) = Some y.
Proof.
  assert (Hnow : forall t p y, hd_error (K (p, t)) = Some y ->
    exists a s,
      t = a ++ s /\ all_chars (Re.accepts cc) a = true /\
      (forall a1 a2, a = a1 ++ a2 -> a2 <> "" ->
                     K (p + String.length a1, a2 ++ s) = []) /\
      hd_error (K (p + String.length a, s)) = Some y).
  { intros t p y H. exists "", t. simpl. rewrite Nat.add_0_r. repeat split; [|assumption].
    intros a1 a2 E Hne. destruct a1; [simpl in E; congruence | discriminate]. }
  induction t as [|c t IH]; intros p y H.
  - simpl in H. rewrite app_nil_r in H. now apply Hnow.
  - simpl in H. destruct (K (p, String c t)) as [|z l] eqn:EK.
    + simpl in H. destruct (Re.accepts cc c) eqn:Hc; [|discriminate].
      apply IH in H as (a & s & -> & Hall & Hearly & Hhit).
      exists (String c a), s. simpl. rewrite Hc, Hall. repeat split.
      * intros a1 a2 E Hne. destruct a1 as [|x a1]; simpl in E.
        -- subst a2. simpl. now rewrite Nat.add_0_r.
        -- injection E as <- E. simpl.
           replace (p + S (String.length a1)) with (S p + String.length a1) by lia.
           now apply Hearly.
      * now replace (p + S (String.length a)) with (S p + String.length a) by lia.
    + simpl in H. apply Hnow. rewrite EK. exact H.
Qed.

End FirstMatch.

(* ================================================================== *)
(** ** What [parse_package_filename] returns *)

Section Parser.

Lemma exec_seq (r1 r2 : Re.regex) (st : Re.state) :
  Re.exec (Re.Seq r1 r2) st = flat_map (Re.exec r2) (Re.exec r1 st).
Proof. reflexivity. Qed.

Lemma exec_name (f : string) :
  Re.exec name_re (Re.init f) =
  match f with
  | EmptyString => []
  | String c t =>
      if not_newline c
      then map (fun ps => Re.mkState (fst ps) (snd ps) [(1, substring 0 (fst ps) f)])
               (Re.lazy_from Re.AnyChar 1 t)
      else []
  end.
Proof.
  unfold name_re. destruct f as [|c t]; [reflexivity|].
  cbn [Re.exec Re.init Re.rest Re.pos Re.groups Re.accepts].
  destruct (not_newline c); [|reflexivity].
  rewrite map_map. apply map_ext. intros [p s].
  unfold Re.resume. cbn [fst snd Re.pos Re.rest Re.groups].
  now rewrite Nat.sub_0_r.
Qed.

Lemma exec_pattern (f : string) :
  Re.exec pattern (Re.init f) =
  match f with
  | EmptyString => []
  | String c t =>
      if not_newline c
      then flat_map (after_name f) (Re.lazy_from Re.AnyChar 1 t)
      else []
  end.
Proof.
  unfold pattern. rewrite exec_seq.
  change (Re.exec Re.Bol (Re.init f)) with [Re.init f].
  cbn [flat_map]. rewrite app_nil_r, exec_seq, exec_name.
  destruct f as [|c t]; [reflexivity|].
  destruct (not_newline c); [|reflexivity].
  now rewrite flat_map_map.
Qed.

Lemma in_after_name (f : string) (p : nat) (s : string) (st' : Re.state) :
  In st' (after_name f (p, s)) <->
  exists v tl,
    version_like v /\ Re.at_eol tl = true /\
    s = "-" ++ v ++ ".tar.gz" ++ tl /\
    st' = Re.mkState (p + String.length ("-" ++ v ++ ".tar.gz")) tl
            [(2, v); (1, substring 0 p f)].
Proof. unfold after_name. rewrite in_exec_tail. reflexivity. Qed.

Lemma parse_of_match (f : string) (st : Re.state) (n v : string) :
  Re.match_ pattern f = Some st ->
  Re.groups st = [(2, v); (1, n)] ->
  parse_package_filename f = (Some n, Some v).
Proof.
  intros H G. unfold parse_package_filename. rewrite H.
  unfold Re.group. now rewrite G.
Qed.

(** The parser returns the split of the file name whose name part is the
    shortest. *)
Lemma parse_shortest (f n v : string) :
  splits_as f n v ->
  (forall n' v', splits_as f n' v' -> String.length n <= String.length n') ->
  parse_package_filename f = (Some n, Some v).
Proof.
  intros (Hne & Hnl & Hv & tl & Etl & ->) Hmin.
  destruct n as [|c0 n0]; [congruence|].
  unfold no_newline in Hnl. simpl in Hnl. apply andb_prop in Hnl as [Hc0 Hn0].
  set (s := "-" ++ v ++ ".tar.gz" ++ tl).
  set (f := String c0 n0 ++ s).
  assert (Hin : In (Re.mkState (1 + String.length n0 + String.length ("-" ++ v ++ ".tar.gz"))
                       tl [(2, v); (1, substring 0 (1 + String.length n0) f)])
                   (after_name f (1 + String.length n0, s))).
  { apply in_after_name. exists v, tl. now repeat split. }
  destruct (after_name f (1 + String.length n0, s)) as [|y l] eqn:EK; [destruct Hin|].
  assert (Hy : In y (after_name f (1 + String.length n0, s))) by (rewrite EK; now left).
  apply in_after_name in Hy as (v' & tl' & Hv' & Etl' & Es & Ey).
  assert (v = v') as <-.
  { unfold s in Es. simpl in Es. injection Es as Es.
    now apply tail_unique in Es as [? _]. }
  apply (parse_of_match _ y); [|rewrite Ey; simpl; do 3 f_equal;
    exact (substring_0_append (String c0 n0) s)].
  unfold Re.match_. rewrite exec_pattern. fold f. unfold f at 1. simpl append.
  cbv match. rewrite Hc0. apply (lazy_first_hit (after_name f) Re.AnyChar n0 1 s y l Hn0); [|exact EK].
  intros a1 a2 -> Hne2.
  destruct (nil_or_in (after_name f (1 + String.length a1, a2 ++ s))) as [E | [z Hz]];
    [exact E | exfalso].
  apply in_after_name in Hz as (v2 & tl2 & Hv2 & Etl2 & Es2 & _).
  specialize (Hmin (String c0 a1) v2).
  simpl in Hmin. rewrite length_append in Hmin.
  assert (String.length a2 <> 0) by (destruct a2; [congruence | discriminate]).
  enough (S (String.length a1 + String.length a2) <= S (String.length a1)) by lia.
  apply Hmin. repeat split.
  - discriminate.
  - rewrite all_chars_append in Hn0. apply andb_prop in Hn0 as [Ha1 _].
    unfold no_newline. simpl. now rewrite Hc0.
  - exact Hv2.
  - exists tl2. split; [exact Etl2|]. simpl. f_equal.
    rewrite append_assoc. exact (f_equal (append a1) Es2).
Qed.

(** Conversely, what the parser returns is a split of the file name, and
    no split has a shorter name. *)
Lemma parse_sound (f n v : string) :
  parse_package_filename f = (Some n, Some v) ->
  splits_as f n v /\
  (forall n' v', splits_as f n' v' -> String.length n <= String.length n').
Proof.
  unfold parse_package_filename, Re.match_. rewrite exec_pattern.
  destruct f as [|c0 t]; [discriminate|].
  destruct (not_newline c0) eqn:Hc0; [|discriminate].
  set (f := String c0 t).
  destruct (hd_error (flat_map (after_name f) (Re.lazy_from Re.AnyChar 1 t)))
    as [st|] eqn:Hhd; [|discriminate].
  apply lazy_first_hit_inv in Hhd as (a & s & -> & Ha & Hearly & Hhit).
  apply hd_error_in, in_after_name in Hhit as (v0 & tl & Hv0 & Etl & -> & ->).
  assert (En : substring 0 (1 + String.length a) f = String c0 a).
  { exact (substring_0_append (String c0 a) _). }
  unfold Re.group. cbn [Re.groups Re.lookup Nat.eqb]. rewrite En.
  intros [= <- <-]. split.
  - repeat split; [discriminate | unfold no_newline; simpl; now rewrite Hc0 | exact Hv0 |].
    exists tl. split; [exact Etl | reflexivity].
  - intros n' v' (Hne' & Hnl' & Hv' & tl' & Etl' & E').
    destruct (Nat.le_gt_cases (String.length (String c0 a)) (String.length n')) as [|Hlt];
      [assumption | exfalso].
    (* a shorter name would have been found earlier *)
    destruct n' as [|c1 n1]; [congruence|].
    unfold f in E'. simpl in E'. injection E' as <- E'. simpl in Hlt.
    assert (Hsplit : exists a2, a = n1 ++ a2 /\ a2 <> "").
    { clear - E' Hlt. revert a E' Hlt.
      induction n1 as [|x n1 IH]; intros a E Hlt.
      - exists a. split; [reflexivity|]. destruct a; [simpl in Hlt; lia | discriminate].
      - destruct a as [|y a]; [simpl in Hlt; lia|].
        simpl in E. injection E as -> E.
        destruct (IH a E) as (a2 & -> & Hne); [simpl in Hlt; lia|].
        now exists a2. }
    destruct Hsplit as (a2 & -> & Hne2).
    specialize (Hearly n1 a2 eq_refl Hne2).
    rewrite append_assoc in E'. apply append_inv_head in E'.
    assert (Hin : In (Re.mkState (1 + String.length n1 + String.length ("-" ++ v' ++ ".tar.gz"))
                         tl' [(2, v'); (1, substring 0 (1 + String.length n1) f)])
                     (after_name f (1 + String.length n1, a2 ++ "-" ++ v0 ++ ".tar.gz" ++ tl))).
    { apply in_after_name. exists v', tl'. now repeat split. }
    rewrite Hearly in Hin. destruct Hin.
Qed.

(** Either both components are strings or both are [None]. *)
Lemma parse_cases (f : string) :
  parse_package_filename f = (None, None) \/
  exists n v, parse_package_filename f = (Some n, Some v).
Proof.
  unfold parse_package_filename, Re.match_.
  destruct (hd_error (Re.exec pattern (Re.init f))) as [st|] eqn:Hhd; [right | now left].
  rewrite exec_pattern in Hhd.
  destruct f as [|c0 t]; [discriminate|].
  destruct (not_newline c0); [|discriminate].
  apply lazy_first_hit_inv in Hhd as (a & s & _ & _ & _ & Hhit).
  apply hd_error_in, in_after_name in Hhit as (v0 & tl & _ & _ & _ & ->).
  unfold Re.group; simpl. now eexists _, _.
Qed.

(** No match exactly when the file name has no split at all. *)
Lemma parse_none_iff (f : string) :
  parse_package_filename f = (None, None) <->
  forall n v, ~ splits_as f n v.
Proof.
  split.
  - intros H n v (Hne & Hnl & Hv & tl & Etl & ->).
    destruct n as [|c0 n0]; [congruence|].
    unfold no_newline in Hnl. simpl in Hnl. apply andb_prop in Hnl as [Hc0 Hn0].
    set (s := "-" ++ v ++ ".tar.gz" ++ tl) in *.
    unfold parse_package_filename, Re.match_ in H. rewrite exec_pattern in H.
    change (String c0 n0 ++ s) with (String c0 (n0 ++ s)) in H.
    cbv match in H. rewrite Hc0 in H.
    set (f := String c0 (n0 ++ s)) in *.
    assert (Hin : In (Re.mkState (1 + String.length n0 + String.length ("-" ++ v ++ ".tar.gz"))
                       tl [(2, v); (1, substring 0 (1 + String.length n0) f)])
                     (flat_map (after_name f) (Re.lazy_from Re.AnyChar 1 (n0 ++ s)))).
    { apply in_flat_map. exists (1 + String.length n0, s). split.
      - apply in_lazy_from. exists n0. now repeat split.
      - apply in_after_name. exists v, tl. now repeat split. }
    destruct (flat_map (after_name f) (Re.lazy_from Re.AnyChar 1 (n0 ++ s)))
      as [|z l] eqn:EF; [destruct Hin|].
    assert (Hz : In z (flat_map (after_name f) (Re.lazy_from Re.AnyChar 1 (n0 ++ s))))
      by (rewrite EF; now left).
    apply in_flat_map in Hz as ([p t] & _ & Hz).
    apply in_after_name in Hz as (v0 & tl0 & _ & _ & _ & ->).
    discriminate.
  - intros H. destruct (parse_cases f) as [E | (n & v & E)]; [exact E|].
    apply parse_sound in E as [E _]. now apply H in E.
Qed.

Lemma all_chars_weaken (p q : ascii -> bool) (s : string) :
  (forall c, p c = true -> q c = true) ->
  all_chars p s = true -> all_chars q s = true.
Proof.
  intros Hpq. induction s as [|c s IH]; simpl; [reflexivity|].
  intros H. apply andb_prop in H as [Hc Hs]. now rewrite (Hpq c Hc), IH.
Qed.

Lemma shorter_prefix (a b x y : string) :
  a ++ x = b ++ y -> String.length b < String.length a ->
  exists a2, a = b ++ a2 /\ a2 <> "".
Proof.
  revert a. induction b as [|c b IH]; intros a E Hlt.
  - exists a. split; [reflexivity|]. destruct a; [simpl in Hlt; lia | discriminate].
  - destruct a as [|d a]; [simpl in Hlt; lia|].
    simpl in E. injection E as -> E.
    destruct (IH a E) as (a2 & -> & Hne); [simpl in Hlt; lia|].
    now exists a2.
Qed.

(** A token that starts right after a dash lies before the next dash. *)
Lemma token_before_dash (b r v tl : string) :
  version_like v ->
  b ++ String "-" r = v ++ tl ->
  token_prefix b.
Proof.
  intros (d1 & d2 & d3 & sfx & D1 & D2 & D3 & _ & ->) E.
  set (p := fun c => is_digit c || (c =? ".")%char).
  assert (Hp : forall s, all_chars is_digit s = true -> all_chars p s = true).
  { intros s. apply all_chars_weaken. intros c Hc. unfold p. now rewrite Hc. }
  destruct (run_within p (d1 ++ "." ++ d2 ++ "." ++ d3) (sfx ++ tl) b r "-") as [r'' ->].
  - destruct D1 as [_ A1], D2 as [_ A2], D3 as [_ A3].
    rewrite all_chars_append, (Hp _ A1). simpl.
    rewrite all_chars_append, (Hp _ A2). simpl. now apply Hp.
  - reflexivity.
  - rewrite E. now rewrite !append_assoc.
  - exists d1, d2, d3, r''.
    split; [exact D1|]. split; [exact D2|]. split; [exact D3|].
    now rewrite !append_assoc.
Qed.

(** Outside the final line feed that [$] tolerates, a parsed name is
    rebuilt exactly from the two components. *)
Lemma parse_round_trip (f n v : string) :
  parse_package_filename f = (Some n, Some v) ->
  n <> "" /\ token_prefix v /\
  (f = n ++ "-" ++ v ++ ".tar.gz" \/
   f = n ++ "-" ++ v ++ ".tar.gz" ++ String newline "").
Proof.
  intros H. apply parse_sound in H as [(Hne & _ & Hv & tl & Etl & ->) _].
  split; [exact Hne|]. split.
  - destruct Hv as (d1 & d2 & d3 & sfx & D1 & D2 & D3 & _ & ->).
    now exists d1, d2, d3, sfx.
  - apply at_eol_iff in Etl as [-> | ->]; [left | right]; reflexivity.
Qed.

Lemma ends_with_iff (sfx s : string) :
  ends_with sfx s = true <-> exists a, s = a ++ sfx.
Proof.
  split.
  - induction s as [|c t IH]; cbn [ends_with]; intros H; apply orb_prop in H as [H | H].
    + apply String.eqb_eq in H. subst. now exists "".
    + discriminate.
    + apply String.eqb_eq in H. subst. now exists "".
    + destruct (IH H) as [a ->]. now exists (String c a).
  - intros [a ->]. induction a as [|c a IH].
    + destruct sfx; cbn [ends_with append]; now rewrite String.eqb_refl.
    + cbn [ends_with append]. rewrite IH. apply orb_true_r.
Qed.

(** The names [glob] hands to the parser end in [.tar.gz], so for them the
    round trip is exact. *)
Lemma parse_round_trip_tar_gz (f n v : string) :
  ends_with ".tar.gz" f = true ->
  parse_package_filename f = (Some n, Some v) ->
  f = n ++ "-" ++ v ++ ".tar.gz".
Proof.
  intros He H. apply parse_round_trip in H as (_ & _ & [E | E]); [exact E | exfalso].
  apply ends_with_iff in He as [a Ea]. rewrite Ea in E.
  apply (f_equal last_char) in E.
  rewrite (last_char_append a _ ".") in E.
  replace (n ++ "-" ++ v ++ ".tar.gz" ++ String newline "")
    with ((n ++ "-" ++ v ++ ".tar.gz") ++ String newline "") in E
    by now rewrite !append_assoc.
  rewrite last_char_append in E. discriminate.
Qed.

(** A name that ends neither in [.tar.gz] nor in [.tar.gz] and a final
    line feed is not matched. *)
Lemma parse_rejects_other_endings (f : string) :
  ends_with ".tar.gz" f = false ->
  ends_with (".tar.gz" ++ String newline "") f = false ->
  parse_package_filename f = (None, None).
Proof.
  intros H1 H2. destruct (parse_cases f) as [E | (n & v & E)]; [exact E | exfalso].
  apply parse_round_trip in E as (_ & _ & [E | E]).
  - assert (ends_with ".tar.gz" f = true); [|congruence].
    apply ends_with_iff. exists (n ++ "-" ++ v). rewrite E. now rewrite !append_assoc.
  - assert (ends_with (".tar.gz" ++ String newline "") f = true); [|congruence].
    apply ends_with_iff. exists (n ++ "-" ++ v). rewrite E. now rewrite !append_assoc.
Qed.

(** A name in which no version token starts anywhere is not matched. *)
Lemma parse_rejects_without_version (f : string) :
  (forall a b, f = a ++ b -> ~ token_prefix b) ->
  parse_package_filename f = (None, None).
Proof.
  intros H. destruct (parse_cases f) as [E | (n & v & E)]; [exact E | exfalso].
  apply parse_round_trip in E as (_ & Hv & [E | E]).
  - apply (H (n ++ "-") (v ++ ".tar.gz")); [now rewrite E, !append_assoc|].
    destruct Hv as (d1 & d2 & d3 & r & D1 & D2 & D3 & ->).
    exists d1, d2, d3, (r ++ ".tar.gz").
    split; [exact D1|]. split; [exact D2|]. split; [exact D3|].
    now rewrite !append_assoc.
  - apply (H (n ++ "-") (v ++ ".tar.gz" ++ String newline ""));
      [now rewrite E, !append_assoc|].
    destruct Hv as (d1 & d2 & d3 & r & D1 & D2 & D3 & ->).
    exists d1, d2, d3, (r ++ ".tar.gz" ++ String newline "").
    split; [exact D1|]. split; [exact D2|]. split; [exact D3|].
    now rewrite !append_assoc.
Qed.

(** An archive name that is not matched leaves the dictionary as it is,
    and raises nothing. *)
Lemma process_skips_unmatched (packages : dict) (f : string) :
  parse_package_filename f = (None, None) -> process packages f = Some packages.
Proof. intros H. unfold process. now rewrite H. Qed.

End Parser.

(* ================================================================== *)
(** ** The parser on well-formed archive names *)

(** C1, as amended.  For every name [n] that is not empty, holds no line
    feed and has no dash, past its first character, that is immediately
    followed by digits, dot, digits, dot, digits; and every version [v]
    made of such a token and then characters other than line feeds: parsing
    [n ++ "-" ++ v ++ ".tar.gz"] returns exactly [(n, v)]. *)
Theorem parser_returns_name_and_version (n v : string) :
  n <> "" ->
  no_newline n ->
  (forall a b, a <> "" -> n = a ++ "-" ++ b -> ~ token_prefix b) ->
  version_like v ->
  parse_package_filename (n ++ "-" ++ v ++ ".tar.gz") = (Some n, Some v).
Proof.
  intros Hne Hnl Hdash Hv. apply parse_shortest.
  - repeat split; try assumption. exists "". split; reflexivity.
  - intros n' v' (Hne' & _ & Hv' & tl' & _ & E).
    destruct (Nat.le_gt_cases (String.length n) (String.length n')) as [|Hlt];
      [assumption | exfalso].
    destruct (shorter_prefix _ _ _ _ E Hlt) as (a2 & -> & Hne2).
    rewrite append_assoc in E. apply append_inv_head in E.
    destruct a2 as [|c b]; [congruence|].
    simpl in E. injection E as -> E.
    apply (Hdash n' b Hne' eq_refl).
    apply (token_before_dash b (v ++ ".tar.gz") v' (".tar.gz" ++ tl') Hv').
    exact E.
Qed.

Lemma parser_returns_name_and_version_witness :
  parse_package_filename ("base-dev" ++ "-" ++ "1.0.0-rc1" ++ ".tar.gz")
  = (Some "base-dev", Some "1.0.0-rc1").
Proof.
  apply parser_returns_name_and_version.
  - discriminate.
  - reflexivity.
  - intros a b Ha E (d1 & d2 & d3 & r & [N1 A1] & _ & _ & Eb).
    destruct a as [|c a]; [congruence|].
    simpl in E. injection E as _ E.
    destruct a as [|c1 a]; simpl in E; [discriminate|]; injection E as _ E.
    destruct a as [|c2 a]; simpl in E; [discriminate|]; injection E as _ E.
    destruct a as [|c3 a]; simpl in E; [discriminate|]; injection E as _ E.
    destruct a as [|c4 a]; simpl in E.
    + injection E as <-. destruct d1 as [|x d1]; [congruence|].
      simpl in Eb. injection Eb as <- _. discriminate A1.
    + injection E as _ E.
      destruct a as [|c5 a]; simpl in E; [discriminate|]; injection E as _ E.
      destruct a as [|c6 a]; simpl in E; [discriminate|]; injection E as _ E.
      destruct a as [|c7 a]; simpl in E; [discriminate|]; injection E as _ E.
      destruct a; discriminate.
  - exists "1", "0", "0", "-rc1". repeat split; discriminate.
Defined.

(** C1 as stated fails: the name group is lazy, so a name that itself
    holds a dash followed by a version token is cut at that dash. *)
Lemma parser_cuts_name_at_first_version :
  token_prefix "4.5.6" /\
  parse_package_filename ("a-1.2.3-b" ++ "-" ++ "4.5.6" ++ ".tar.gz")
    = (Some "a", Some "1.2.3-b-4.5.6") /\
  parse_package_filename ("a-1.2.3-b" ++ "-" ++ "4.5.6" ++ ".tar.gz")
    <> (Some "a-1.2.3-b", Some "4.5.6").
Proof.
  split; [|split].
  - exists "4", "5", "6", "". repeat split; discriminate.
  - reflexivity.
  - discriminate.
Qed.

(* ================================================================== *)
(** ** Dictionaries *)

Section DictFacts.

Lemma dict_get_set_same (k : string) (v : pyval) (d : dict) :
  dict_get k (dict_set k v d) = Some v.
Proof.
  induction d as [|[k' v'] d IH]; simpl.
  - now rewrite String.eqb_refl.
  - destruct (k =? k')%string eqn:E; simpl.
    + now rewrite String.eqb_refl.
    + now rewrite E.
Qed.

Lemma dict_get_set_other (k k' : string) (v : pyval) (d : dict) :
  k' <> k -> dict_get k' (dict_set k v d) = dict_get k' d.
Proof.
  intros Hne. apply String.eqb_neq in Hne.
  induction d as [|[k0 v0] d IH]; simpl.
  - now rewrite Hne.
  - destruct (k =? k0)%string eqn:E; simpl.
    + apply String.eqb_eq in E. subst k0. now rewrite Hne.
    + now rewrite IH.
Qed.

Lemma dict_get_in (k : string) (v : pyval) (d : dict) :
  dict_get k d = Some v -> In (k, v) d.
Proof.
  induction d as [|[k' v'] d IH]; simpl; [discriminate|].
  destruct (k =? k')%string eqn:E.
  - apply String.eqb_eq in E. intros [= ->]. left. now subst.
  - intros H. right. now apply IH.
Qed.

Lemma dict_mem_keys (k : string) (d : dict) :
  dict_mem k d = true <-> In k (keys d).
Proof.
  unfold dict_mem. induction d as [|[k' v'] d IH]; simpl.
  - split; [discriminate | intros []].
  - destruct (String.eqb_spec k k') as [-> | Hne].
    + split; [now left | reflexivity].
    + rewrite IH. split; [now right | intros [E | H]; [congruence | exact H]].
Qed.

Lemma keys_dict_set (k : string) (v : pyval) (d : dict) :
  keys (dict_set k v d) = if dict_mem k d then keys d else (keys d ++ [k])%list.
Proof.
  unfold dict_mem. induction d as [|[k' v'] d IH]; simpl; [reflexivity|].
  destruct (String.eqb_spec k k') as [-> | Hne]; simpl; [reflexivity|].
  rewrite IH. now destruct (dict_get k d).
Qed.

Lemma NoDup_keys_dict_set (k : string) (v : pyval) (d : dict) :
  NoDup (keys d) -> NoDup (keys (dict_set k v d)).
Proof.
  intros H. rewrite keys_dict_set.
  destruct (dict_mem k d) eqn:E; [exact H|].
  apply (Permutation_NoDup (l := k :: keys d)).
  - apply Permutation_cons_append.
  - constructor; [|exact H]. intros Hin. apply dict_mem_keys in Hin. congruence.
Qed.

Lemma in_dict_get (k : string) (v : pyval) (d : dict) :
  NoDup (keys d) -> In (k, v) d -> dict_get k d = Some v.
Proof.
  induction d as [|[k' v'] d IH]; simpl; [intros _ []|].
  intros Hnd [E | Hin].
  - injection E as -> ->. now rewrite String.eqb_refl.
  - inversion Hnd as [|? ? Hnotin Hnd']; subst.
    destruct (String.eqb_spec k k') as [-> | Hne].
    + exfalso. apply Hnotin. now apply (in_map fst) in Hin.
    + now apply IH.
Qed.

End DictFacts.

(* ================================================================== *)
(** ** The accumulation loop *)

Section Loop.

Lemma process_parsed (packages : dict) (f : string) :
  process packages f =
  match parsed f with
  | Some (name, version) => record_version name version packages
  | None => Some packages
  end.
Proof.
  unfold process, parsed.
  destruct (parse_package_filename f) as [[name|] [version|]]; try reflexivity.
  now destruct (negb (name =? "") && negb (version =? "")).
Qed.

Lemma version_like_nonempty (v : string) : version_like v -> v <> "".
Proof.
  intros (d1 & d2 & d3 & sfx & [N1 _] & _ & _ & _ & ->).
  destruct d1; [congruence | discriminate].
Qed.

(** The loop records a pair exactly when the parser returns one: the two
    strings it returns are never empty. *)
Lemma parsed_iff (f n v : string) :
  parsed f = Some (n, v) <-> parse_package_filename f = (Some n, Some v).
Proof.
  unfold parsed. split.
  - destruct (parse_package_filename f) as [[n'|] [v'|]]; try discriminate.
    destruct (negb (n' =? "") && negb (v' =? "")); [|discriminate].
    now intros [= -> ->].
  - intros H. rewrite H.
    apply parse_sound in H as [(Hn & _ & Hv & _) _].
    apply version_like_nonempty in Hv.
    apply String.eqb_neq in Hn, Hv. now rewrite Hn, Hv.
Qed.

Lemma versions_for_app (name : string) (ps qs : list (string * string)) :
  versions_for name (ps ++ qs) = (versions_for name ps ++ versions_for name qs)%list.
Proof. unfold versions_for. now rewrite filter_app, map_app. Qed.

Lemma versions_for_one_same (name v : string) :
  versions_for name [(name, v)] = [v].
Proof. unfold versions_for. simpl. now rewrite String.eqb_refl. Qed.

Lemma versions_for_one_other (name n v : string) :
  name <> n -> versions_for name [(n, v)] = [].
Proof.
  intros H. unfold versions_for. simpl.
  destruct (String.eqb_spec n name); [congruence | reflexivity].
Qed.

Lemma entry_of_snoc (vs : list string) (v : string) :
  entry_of (vs ++ [v]) =
  PDict [("versions", PList (map PStr vs ++ [PStr v])); ("latest", PStr v)].
Proof. unfold entry_of. now rewrite map_app, last_last. Qed.

(** One recorded pair: no exception is raised and the dictionary follows
    the pairs recorded so far. *)
Lemma record_version_reflects (n v : string) (packages : dict)
      (pairs : list (string * string)) :
  reflects packages pairs ->
  exists packages',
    record_version n v packages = Some packages' /\
    reflects packages' (pairs ++ [(n, v)]) /\
    (NoDup (keys packages) -> NoDup (keys packages')).
Proof.
  intros H. pose proof (H n) as Hn.
  unfold record_version, ensure_entry, dict_mem.
  destruct (versions_for n pairs) as [|v0 vs0] eqn:Ev; rewrite Hn.
  - (* first time: the entry is created, then filled *)
    unfold append_version. rewrite dict_get_set_same.
    cbn [new_entry dict_get String.eqb Ascii.eqb Bool.eqb dict_set app].
    unfold set_latest. rewrite dict_get_set_same.
    cbn [dict_get String.eqb Ascii.eqb Bool.eqb dict_set].
    eexists. split; [reflexivity|]. split.
    + intros name. rewrite versions_for_app.
      destruct (String.eqb_spec name n) as [-> | Hne].
      * now rewrite dict_get_set_same, Ev, versions_for_one_same.
      * rewrite !dict_get_set_other by assumption.
        rewrite versions_for_one_other, app_nil_r by assumption. apply H.
    + intros Hnd. now do 3 apply NoDup_keys_dict_set.
  - (* seen before: the entry grows by one version *)
    unfold append_version. rewrite Hn.
    cbn [entry_of dict_get String.eqb Ascii.eqb Bool.eqb dict_set].
    unfold set_latest. rewrite dict_get_set_same.
    cbn [dict_get String.eqb Ascii.eqb Bool.eqb dict_set].
    eexists. split; [reflexivity|]. split.
    + intros name. rewrite versions_for_app.
      destruct (String.eqb_spec name n) as [-> | Hne].
      * rewrite dict_get_set_same, Ev, versions_for_one_same.
        rewrite <- entry_of_snoc. reflexivity.
      * rewrite !dict_get_set_other by assumption.
        rewrite versions_for_one_other, app_nil_r by assumption. apply H.
    + intros Hnd. now do 2 apply NoDup_keys_dict_set.
Qed.

Lemma run_loop_snoc (files : list string) (f : string) (packages : dict) :
  run_loop (files ++ [f]) packages =
  match run_loop files packages with
  | Some pk => process pk f
  | None => None
  end.
Proof. unfold run_loop. now rewrite fold_left_app. Qed.

Lemma parsed_pairs_snoc (files : list string) (f : string) :
  parsed_pairs (files ++ [f]) =
  (parsed_pairs files ++ match parsed f with Some p => [p] | None => [] end)%list.
Proof. unfold parsed_pairs. rewrite flat_map_app. simpl. now rewrite app_nil_r. Qed.

(** The loop never raises, and when it ends the dictionary holds exactly
    what the archive names processed so far say. *)
Lemma run_loop_reflects (files : list string) :
  exists packages,
    run_loop files [] = Some packages /\
    reflects packages (parsed_pairs files) /\
    NoDup (keys packages).
Proof.
  induction files as [|f files IH] using rev_ind.
  - exists []. split; [reflexivity|]. split; [intros name; reflexivity | constructor].
  - destruct IH as (pk & Hrun & Hrefl & Hnd).
    rewrite run_loop_snoc, Hrun, process_parsed, parsed_pairs_snoc.
    destruct (parsed f) as [[n v]|].
    + destruct (record_version_reflects n v pk _ Hrefl) as (pk' & E & R & N).
      exists pk'. split; [exact E|]. split; [exact R | now apply N].
    + exists pk. rewrite app_nil_r. split; [reflexivity|]. now split.
Qed.

(** The last element of a non-empty list of recorded versions comes from
    the last archive of that name. *)
Lemma last_version_source (name : string) (files : list string) :
  versions_for name (parsed_pairs files) <> [] ->
  exists before f v after,
    files = (before ++ f :: after)%list /\
    parsed f = Some (name, v) /\
    (forall g v', In g after -> parsed g <> Some (name, v')) /\
    last (versions_for name (parsed_pairs files)) "" = v.
Proof.
  induction files as [|g files IH] using rev_ind; [intros H; now elim H|].
  rewrite parsed_pairs_snoc, versions_for_app.
  destruct (parsed g) as [[n v]|] eqn:Eg.
  - destruct (String.eqb_spec name n) as [-> | Hne].
    + intros _. exists files, g, v, []. rewrite versions_for_one_same, last_last.
      repeat split; [exact Eg | intros ? ? []].
    + rewrite versions_for_one_other, app_nil_r by assumption.
      intros H. destruct (IH H) as (before & f & v1 & after & -> & Ef & Hafter & Hlast).
      exists before, f, v1, (after ++ [g])%list. repeat split.
      * now rewrite <- app_assoc.
      * exact Ef.
      * intros g' v' Hin. apply in_app_or in Hin as [Hin | [<- | []]].
        -- now apply Hafter.
        -- rewrite Eg. congruence.
      * exact Hlast.
  - simpl. rewrite app_nil_r.
    intros H. destruct (IH H) as (before & f & v1 & after & -> & Ef & Hafter & Hlast).
    exists before, f, v1, (after ++ [g])%list. repeat split.
    + now rewrite <- app_assoc.
    + exact Ef.
    + intros g' v' Hin. apply in_app_or in Hin as [Hin | [<- | []]].
      * now apply Hafter.
      * rewrite Eg. discriminate.
    + exact Hlast.
Qed.

End Loop.

(* ================================================================== *)
(** ** The directory scan *)

Section Scan.

Lemma leb_trans (a b c : string) :
  (a <=? b)%string = true -> (b <=? c)%string = true -> (a <=? c)%string = true.
Proof.
  unfold String.leb. intros Hab Hbc.
  destruct (a ?= b)%string eqn:Eab; [| |discriminate].
  - apply String.compare_eq_iff in Eab. now subst.
  - destruct (b ?= c)%string eqn:Ebc; [| |discriminate].
    + apply String.compare_eq_iff in Ebc. subst. now rewrite Eab.
    + apply String_as_OT.cmp_lt in Eab, Ebc.
      pose proof (String_as_OT.lt_trans _ _ _ Eab Ebc) as Hac.
      apply String_as_OT.cmp_lt in Hac. unfold String_as_OT.cmp in Hac.
      now rewrite Hac.
Qed.

Lemma insert_sorted_perm (x : string) (l : list string) :
  Permutation (insert_sorted x l) (x :: l).
Proof.
  induction l as [|y l IH]; simpl; [reflexivity|].
  destruct (x <=? y)%string; [reflexivity|].
  rewrite IH. apply perm_swap.
Qed.

Lemma sorted_perm (l : list string) : Permutation (sorted l) l.
Proof.
  induction l as [|x l IH]; simpl; [reflexivity|].
  rewrite insert_sorted_perm. now constructor.
Qed.

Lemma insert_sorted_ascending (x : string) (l : list string) :
  ascending l -> ascending (insert_sorted x l).
Proof.
  unfold ascending. induction l as [|y l IH]; simpl; intros H.
  - constructor; constructor.
  - apply StronglySorted_inv in H as [Hl Hy].
    destruct (x <=? y)%string eqn:E.
    + constructor; [constructor; assumption|].
      constructor; [exact E|].
      rewrite Forall_forall in Hy |- *. intros z Hz.
      exact (leb_trans _ _ _ E (Hy z Hz)).
    + constructor; [now apply IH|].
      rewrite Forall_forall in Hy |- *. intros z Hz.
      apply (Permutation_in _ (insert_sorted_perm x l)) in Hz as [<- | Hz].
      * destruct (String.leb_total x y) as [H | H]; [congruence | exact H].
      * now apply Hy.
Qed.

(** [sorted] lists its argument in ascending order. *)
Lemma sorted_ascending (l : list string) : ascending (sorted l).
Proof.
  induction l as [|x l IH]; simpl; [constructor|].
  now apply insert_sorted_ascending.
Qed.

(** There is one ascending arrangement of any given names. *)
Lemma ascending_unique (l1 l2 : list string) :
  ascending l1 -> ascending l2 -> Permutation l1 l2 -> l1 = l2.
Proof.
  unfold ascending. revert l2. induction l1 as [|x l1 IH]; intros l2 H1 H2 P.
  - apply Permutation_nil in P. now subst.
  - destruct l2 as [|y l2]; [apply Permutation_sym, Permutation_nil in P; discriminate|].
    apply StronglySorted_inv in H1 as [S1 F1], H2 as [S2 F2].
    rewrite Forall_forall in F1, F2.
    assert (x = y) as <-.
    { assert (Hx : In x (y :: l2)) by (apply (Permutation_in _ P); now left).
      assert (Hy : In y (x :: l1)) by (apply (Permutation_in _ (Permutation_sym P)); now left).
      destruct Hx as [-> | Hx]; [reflexivity|].
      destruct Hy as [-> | Hy]; [reflexivity|].
      apply String.leb_antisym; [now apply F1 | now apply F2]. }
    f_equal. apply IH; try assumption. now apply Permutation_cons_inv in P.
Qed.

Lemma sorted_of_permutation (l l' : list string) :
  Permutation l l' -> sorted l = sorted l'.
Proof.
  intros P. apply ascending_unique; try apply sorted_ascending.
  now rewrite !sorted_perm.
Qed.

Lemma glob_of_permutation (l l' : list string) :
  Permutation l l' -> Permutation (glob_tar_gz l) (glob_tar_gz l').
Proof.
  unfold glob_tar_gz. induction 1 as [|x l l' _ IH|x y l|l l' l'' _ IH1 _ IH2]; simpl.
  - reflexivity.
  - destruct (ends_with ".tar.gz" x); [now constructor | exact IH].
  - destruct (ends_with ".tar.gz" x), (ends_with ".tar.gz" y);
      try reflexivity. apply perm_swap.
  - now transitivity (filter (ends_with ".tar.gz") l').
Qed.

(** The order in which the system lists the directory does not matter. *)
Lemma packages_of_permutation (l l' : list string) :
  Permutation l l' -> packages_of l = packages_of l'.
Proof.
  intros P. unfold packages_of.
  now rewrite (sorted_of_permutation _ _ (glob_of_permutation _ _ P)).
Qed.

End Scan.

(* ================================================================== *)
(** ** The registry that [main] builds *)

Lemma field_versions_entry_of (vs : list string) :
  field "versions" (entry_of vs) = Some (PList (map PStr vs)).
Proof. reflexivity. Qed.

Lemma field_latest_entry_of (vs : list string) :
  field "latest" (entry_of vs) = Some (PStr (last vs "")).
Proof. reflexivity. Qed.

(** What the loop leaves under a name is the entry of that name's
    versions, of which there is at least one. *)
Lemma run_loop_entry (files : list string) (packages : dict) (name : string)
      (e : pyval) :
  run_loop files [] = Some packages ->
  dict_get name packages = Some e ->
  versions_for name (parsed_pairs files) <> [] /\
  e = entry_of (versions_for name (parsed_pairs files)).
Proof.
  intros Hrun Hget.
  destruct (run_loop_reflects files) as (pk & Hrun' & Hrefl & _).
  rewrite Hrun in Hrun'. injection Hrun' as <-.
  rewrite (Hrefl name) in Hget.
  destruct (versions_for name (parsed_pairs files)) as [|v vs]; [discriminate|].
  injection Hget as <-. split; [discriminate | reflexivity].
Qed.

(** C2.  For every package name in the output, ["latest"] is the version
    of the last archive of that name in the processing order, which is the
    ascending order of file names; the versions are never compared. *)
Theorem latest_is_last_processed
        (entries : list string) (packages : dict) (name : string) (e : pyval) :
  packages_of entries = Some packages ->
  dict_get name packages = Some e ->
  ascending (sorted (glob_tar_gz entries)) /\
  exists before f v after,
    sorted (glob_tar_gz entries) = (before ++ f :: after)%list /\
    parse_package_filename f = (Some name, Some v) /\
    (forall g v', In g after -> parse_package_filename g <> (Some name, Some v')) /\
    field "latest" e = Some (PStr v).
Proof.
  unfold packages_of. intros Hrun Hget.
  split; [apply sorted_ascending|].
  destruct (run_loop_entry _ _ _ _ Hrun Hget) as [Hne ->].
  destruct (last_version_source name _ Hne)
    as (before & f & v & after & Efiles & Ef & Hafter & Hlast).
  exists before, f, v, after. split; [exact Efiles|].
  split; [now apply parsed_iff|]. split.
  - intros g v' Hin Hg. apply parsed_iff in Hg. exact (Hafter g v' Hin Hg).
  - now rewrite field_latest_entry_of, Hlast.
Qed.

Lemma latest_is_last_processed_witness :
  ascending (sorted (glob_tar_gz ["pkg-9.0.0.tar.gz"; "pkg-10.0.0.tar.gz"])) /\
  exists before f v after,
    sorted (glob_tar_gz ["pkg-9.0.0.tar.gz"; "pkg-10.0.0.tar.gz"])
      = (before ++ f :: after)%list /\
    parse_package_filename f = (Some "pkg", Some v) /\
    (forall g v', In g after -> parse_package_filename g <> (Some "pkg", Some v')) /\
    field "latest" (entry_of ["10.0.0"; "9.0.0"]) = Some (PStr v).
Proof.
  apply (latest_is_last_processed
           ["pkg-9.0.0.tar.gz"; "pkg-10.0.0.tar.gz"]
           [("pkg", entry_of ["10.0.0"; "9.0.0"])] "pkg").
  - reflexivity.
  - reflexivity.
Defined.

(** The case the specification singles out: [10.0.0] sorts before [9.0.0]
    as text, so [9.0.0] is processed last and becomes the latest. *)
Example latest_is_not_the_numeric_maximum :
  sorted (glob_tar_gz ["pkg-9.0.0.tar.gz"; "pkg-10.0.0.tar.gz"])
    = ["pkg-10.0.0.tar.gz"; "pkg-9.0.0.tar.gz"] /\
  packages_of ["pkg-9.0.0.tar.gz"; "pkg-10.0.0.tar.gz"]
    = Some [("pkg", PDict [("versions", PList [PStr "10.0.0"; PStr "9.0.0"]);
                           ("latest", PStr "9.0.0")])].
Proof. split; reflexivity. Qed.

(** C3.  A directory holding exactly [base-dev-1.0.0.tar.gz],
    [base-dev-1.2.0.tar.gz] and [tools-0.9.1.tar.gz], however it is listed,
    is processed in ascending order of names and yields the registry
    [{"base-dev": {"versions": ["1.0.0", "1.2.0"], "latest": "1.2.0"},
      "tools": {"versions": ["0.9.1"], "latest": "0.9.1"}}]. *)
Theorem registry_of_three_archives (entries : list string) :
  Permutation entries
    ["base-dev-1.0.0.tar.gz"; "base-dev-1.2.0.tar.gz"; "tools-0.9.1.tar.gz"] ->
  sorted (glob_tar_gz entries)
    = ["base-dev-1.0.0.tar.gz"; "base-dev-1.2.0.tar.gz"; "tools-0.9.1.tar.gz"] /\
  packages_of entries
    = Some [("base-dev", PDict [("versions", PList [PStr "1.0.0"; PStr "1.2.0"]);
                                ("latest", PStr "1.2.0")]);
            ("tools", PDict [("versions", PList [PStr "0.9.1"]);
                             ("latest", PStr "0.9.1")])] /\
  main (Some entries)
    = Some (print (dumps (PDict [("packages", PDict
        [("base-dev", PDict [("versions", PList [PStr "1.0.0"; PStr "1.2.0"]);
                             ("latest", PStr "1.2.0")]);
         ("tools", PDict [("versions", PList [PStr "0.9.1"]);
                          ("latest", PStr "0.9.1")])])]))).
Proof.
  intros P. unfold main.
  rewrite (packages_of_permutation _ _ P).
  rewrite (sorted_of_permutation _ _ (glob_of_permutation _ _ P)).
  repeat split.
Qed.

Lemma registry_of_three_archives_witness :
  packages_of ["tools-0.9.1.tar.gz"; "base-dev-1.2.0.tar.gz"; "base-dev-1.0.0.tar.gz"]
    = Some [("base-dev", PDict [("versions", PList [PStr "1.0.0"; PStr "1.2.0"]);
                                ("latest", PStr "1.2.0")]);
            ("tools", PDict [("versions", PList [PStr "0.9.1"]);
                             ("latest", PStr "0.9.1")])].
Proof.
  apply (registry_of_three_archives
           ["tools-0.9.1.tar.gz"; "base-dev-1.2.0.tar.gz"; "base-dev-1.0.0.tar.gz"]).
  exact (Permutation_rev
           ["tools-0.9.1.tar.gz"; "base-dev-1.2.0.tar.gz"; "base-dev-1.0.0.tar.gz"]).
Defined.

(** C4.  When the build directory does not exist, or holds no entry whose
    name ends in [.tar.gz], [main] raises nothing and prints exactly the
    two-space indented JSON text of [{"packages": {}}]. *)
Theorem no_archives_empty_registry (build : build_dir) :
  (forall entries, build = Some entries -> glob_tar_gz entries = []) ->
  main build = Some empty_registry_text /\
  empty_registry_text = print (dumps (PDict [("packages", PDict [])])).
Proof.
  intros H. split; [|reflexivity].
  destruct build as [entries|]; [|reflexivity].
  unfold main, packages_of. now rewrite (H entries eq_refl).
Qed.

Lemma no_archives_empty_registry_witness :
  main (Some ["README.md"; "notes.tar"; "old.tar.gz.bak"]) = Some empty_registry_text /\
  empty_registry_text = print (dumps (PDict [("packages", PDict [])])).
Proof.
  apply no_archives_empty_registry.
  intros entries [= <-]. reflexivity.
Defined.

Example missing_directory_empty_registry : main None = Some empty_registry_text.
Proof. reflexivity. Qed.

(** C5.  The claim fails on a name that carries a line feed after
    [.tar.gz]: it does not end in [.tar.gz], yet [$] matches before the
    final line feed and the parser returns a pair. *)
Theorem parser_matches_before_final_newline :
  ends_with ".tar.gz" ("a-1.0.0.tar.gz" ++ String newline "") = false /\
  parse_package_filename ("a-1.0.0.tar.gz" ++ String newline "")
    = (Some "a", Some "1.0.0").
Proof. split; reflexivity. Qed.

(** C6.  Whatever the sequence of archive names processed, the
    ["versions"] list of each entry is exactly the sequence of the versions
    recorded for that name, in processing order and with repetitions. *)
Theorem versions_in_processing_order
        (files : list string) (packages : dict) (name : string) (e : pyval) :
  run_loop files [] = Some packages ->
  dict_get name packages = Some e ->
  field "versions" e
    = Some (PList (map PStr (versions_for name (parsed_pairs files)))).
Proof.
  intros Hrun Hget.
  destruct (run_loop_entry _ _ _ _ Hrun Hget) as [_ ->].
  apply field_versions_entry_of.
Qed.

Lemma versions_in_processing_order_witness :
  field "versions" (entry_of ["1.2.0"; "1.0.0"; "1.2.0"])
    = Some (PList (map PStr (versions_for "base-dev"
        (parsed_pairs ["base-dev-1.2.0.tar.gz"; "tools-0.9.1.tar.gz";
                       "base-dev-1.0.0.tar.gz"; "base-dev-1.2.0.tar.gz"])))).
Proof.
  apply (versions_in_processing_order
           ["base-dev-1.2.0.tar.gz"; "tools-0.9.1.tar.gz";
            "base-dev-1.0.0.tar.gz"; "base-dev-1.2.0.tar.gz"]
           [("base-dev", entry_of ["1.2.0"; "1.0.0"; "1.2.0"]);
            ("tools", entry_of ["0.9.1"])]
           "base-dev").
  - reflexivity.
  - reflexivity.
Defined.

(** C7, as amended.  When a name is met for the first time its entry is
    created with an empty version list and with ["latest"] already set to
    the version being processed; the other entries are left alone. *)
Theorem entry_created_with_latest_set
        (name version : string) (packages : dict) :
  dict_mem name packages = false ->
  dict_get name (ensure_entry name version packages)
    = Some (PDict [("versions", PList []); ("latest", PStr version)]) /\
  (forall other, other <> name ->
     dict_get other (ensure_entry name version packages) = dict_get other packages).
Proof.
  intros H. unfold ensure_entry. rewrite H. split.
  - apply dict_get_set_same.
  - intros other Hne. now apply dict_get_set_other.
Qed.

Lemma entry_created_with_latest_set_witness :
  dict_get "tools" (ensure_entry "tools" "0.9.1" [("base-dev", entry_of ["1.0.0"])])
    = Some (PDict [("versions", PList []); ("latest", PStr "0.9.1")]) /\
  (forall other, other <> "tools" ->
     dict_get other (ensure_entry "tools" "0.9.1" [("base-dev", entry_of ["1.0.0"])])
     = dict_get other [("base-dev", entry_of ["1.0.0"])]).
Proof.
  apply entry_created_with_latest_set. reflexivity.
Defined.

(** C7 as stated fails: the entry just created already holds a latest
    version; it is neither missing nor [None]. *)
Lemma entry_created_latest_not_unset :
  dict_mem "pkg" [] = false /\
  exists e,
    dict_get "pkg" (ensure_entry "pkg" "1.0.0" []) = Some e /\
    field "versions" e = Some (PList []) /\
    field "latest" e = Some (PStr "1.0.0") /\
    field "latest" e <> None /\
    field "latest" e <> Some PNone.
Proof.
  split; [reflexivity|].
  exists (new_entry "1.0.0"). repeat split; discriminate.
Qed.

(** C8.  The output is a function of the contents of the directory: two
    listings of the same entries, in whatever order, give the same text,
    and [main] always prints one. *)
Theorem main_deterministic (entries entries' : list string) :
  Permutation entries entries' ->
  main (Some entries) = main (Some entries') /\
  exists out, main (Some entries) = Some out.
Proof.
  intros P. unfold main. rewrite (packages_of_permutation _ _ P). split; [reflexivity|].
  unfold packages_of.
  destruct (run_loop_reflects (sorted (glob_tar_gz entries'))) as (pk & -> & _).
  now eexists.
Qed.

Lemma main_deterministic_witness :
  main (Some ["b-2.0.0.tar.gz"; "notes.txt"; "a-1.0.0.tar.gz"])
  = main (Some ["a-1.0.0.tar.gz"; "notes.txt"; "b-2.0.0.tar.gz"]) /\
  exists out, main (Some ["b-2.0.0.tar.gz"; "notes.txt"; "a-1.0.0.tar.gz"]) = Some out.
Proof.
  apply main_deterministic.
  exact (Permutation_rev ["b-2.0.0.tar.gz"; "notes.txt"; "a-1.0.0.tar.gz"]).
Defined.

(** C9.  The round trip fails on the same name as C5: the parser succeeds
    on a name with a final line feed, and joining what it returns gives
    the name without it. *)
Theorem parser_round_trip_drops_final_newline :
  parse_package_filename ("a-1.0.0.tar.gz" ++ String newline "")
    = (Some "a", Some "1.0.0") /\
  "a" ++ "-" ++ "1.0.0" ++ ".tar.gz" <> "a-1.0.0.tar.gz" ++ String newline "".
Proof. split; [reflexivity | discriminate]. Qed.

(** C10.  After every archive processed, hence also when the loop ends,
    no exception has been raised and every entry of the dictionary lists
    at least one version and has the last one as ["latest"]. *)
Theorem entries_nonempty_and_latest_is_last (files : list string) (k : nat) :
  exists packages,
    run_loop (firstn k files) [] = Some packages /\
    Forall (fun kv =>
              exists vs,
                vs <> [] /\
                snd kv = PDict [("versions", PList (map PStr vs));
                                ("latest", PStr (last vs ""))])
           packages.
Proof.
  destruct (run_loop_reflects (firstn k files)) as (pk & Hrun & Hrefl & Hnd).
  exists pk. split; [exact Hrun|].
  apply Forall_forall. intros [name e] Hin.
  apply (in_dict_get _ _ _ Hnd) in Hin.
  destruct (run_loop_entry _ _ _ _ Hrun Hin) as [Hne ->].
  now exists (versions_for name (parsed_pairs (firstn k files))).
Qed.

(* ================================================================== *)
(** ** Further properties of the parser *)

Section ParserMore.

Lemma digit_not_newline (c : ascii) : is_digit c = true -> not_newline c = true.
Proof.
  unfold not_newline. destruct (Ascii.eqb_spec c newline) as [-> | _];
    [discriminate | reflexivity].
Qed.

Lemma version_like_no_newline (v : string) : version_like v -> no_newline v.
Proof.
  intros (d1 & d2 & d3 & sfx & [_ A1] & [_ A2] & [_ A3] & A4 & ->).
  unfold no_newline.
  rewrite all_chars_append, (all_chars_weaken _ _ _ digit_not_newline A1). simpl.
  rewrite all_chars_append, (all_chars_weaken _ _ _ digit_not_newline A2). simpl.
  now rewrite all_chars_append, (all_chars_weaken _ _ _ digit_not_newline A3).
Qed.

Lemma no_digit_no_token (f : string) :
  all_chars (fun c => negb (is_digit c)) f = true ->
  forall a b, f = a ++ b -> ~ token_prefix b.
Proof.
  intros H a b -> (d1 & d2 & d3 & r & [N1 A1] & _ & _ & ->).
  rewrite all_chars_append in H. apply andb_prop in H as [_ H].
  destruct d1 as [|x d1]; [congruence|]. simpl in H, A1.
  apply andb_prop in H as [H _]. apply andb_prop in A1 as [A1 _].
  rewrite A1 in H. discriminate.
Qed.

End ParserMore.

(** X1.  Whatever the parser returns is a reading of the whole file name
    as name, dash, version and [.tar.gz] (with at most a final line feed
    after it): the name is not empty, neither part holds a line feed, the
    version starts with digits, dot, digits, dot, digits; and no other such
    reading of the file name has a shorter name. *)
Theorem parse_returns_shortest_split (f n v : string) :
  parse_package_filename f = (Some n, Some v) ->
  splits_as f n v /\ no_newline v /\
  (forall n' v', splits_as f n' v' -> String.length n <= String.length n').
Proof.
  intros H. apply parse_sound in H as [Hs Hmin].
  split; [exact Hs|]. split; [|exact Hmin].
  destruct Hs as (_ & _ & Hv & _). now apply version_like_no_newline.
Qed.

Lemma parse_returns_shortest_split_witness :
  splits_as "a-1.2.3-b-4.5.6.tar.gz" "a" "1.2.3-b-4.5.6" /\
  no_newline "1.2.3-b-4.5.6" /\
  (forall n' v', splits_as "a-1.2.3-b-4.5.6.tar.gz" n' v' ->
                 String.length "a" <= String.length n').
Proof.
  apply (parse_returns_shortest_split "a-1.2.3-b-4.5.6.tar.gz" "a" "1.2.3-b-4.5.6").
  reflexivity.
Defined.

(** X2.  The parser returns either no component at all or two strings
    that are both non-empty, so the test [if name and version] of the loop
    holds on every match. *)
Theorem parse_both_or_neither (f : string) :
  parse_package_filename f = (None, None) \/
  exists n v,
    parse_package_filename f = (Some n, Some v) /\ n <> "" /\ v <> "".
Proof.
  destruct (parse_cases f) as [E | (n & v & E)]; [now left | right].
  exists n, v. split; [exact E|].
  apply parse_sound in E as [(Hn & _ & Hv & _) _].
  split; [exact Hn | now apply version_like_nonempty].
Qed.

(** X3.  Every file name that can be read as name, dash, version and
    [.tar.gz] is matched, and the name returned is no longer than the one
    of that reading. *)
Theorem parse_matches_every_split (f n v : string) :
  splits_as f n v ->
  exists n' v',
    parse_package_filename f = (Some n', Some v') /\
    String.length n' <= String.length n.
Proof.
  intros Hs. destruct (parse_cases f) as [E | (n' & v' & E)].
  - exfalso. exact (proj1 (parse_none_iff f) E n v Hs).
  - exists n', v'. split; [exact E|].
    apply parse_sound in E as [_ Hmin]. now apply (Hmin n v).
Qed.

Lemma parse_matches_every_split_witness :
  exists n' v',
    parse_package_filename "a-1.2.3-b-4.5.6.tar.gz" = (Some n', Some v') /\
    String.length n' <= String.length "a-1.2.3-b".
Proof.
  apply (parse_matches_every_split "a-1.2.3-b-4.5.6.tar.gz" "a-1.2.3-b" "4.5.6").
  split; [discriminate|]. split; [reflexivity|]. split.
  - exists "4", "5", "6", "". repeat split; discriminate.
  - exists "". split; reflexivity.
Defined.

(** X4.  On a file name that ends in [.tar.gz], as all those that [main]
    hands over do, joining what the parser returns with a dash and
    [.tar.gz] gives the file name back. *)
Theorem parse_round_trip_on_archives (f n v : string) :
  ends_with ".tar.gz" f = true ->
  parse_package_filename f = (Some n, Some v) ->
  n ++ "-" ++ v ++ ".tar.gz" = f.
Proof. intros He H. symmetry. now apply parse_round_trip_tar_gz. Qed.

Lemma parse_round_trip_on_archives_witness :
  "tools" ++ "-" ++ "0.9.1-rc1" ++ ".tar.gz" = "tools-0.9.1-rc1.tar.gz".
Proof.
  apply (parse_round_trip_on_archives "tools-0.9.1-rc1.tar.gz" "tools" "0.9.1-rc1");
    reflexivity.
Defined.

(** X5.  A file name that ends neither in [.tar.gz] nor in [.tar.gz]
    followed by one line feed is not matched. *)
Theorem parse_rejects_wrong_ending (f : string) :
  ends_with ".tar.gz" f = false ->
  ends_with (".tar.gz" ++ String newline "") f = false ->
  parse_package_filename f = (None, None).
Proof. apply parse_rejects_other_endings. Qed.

Lemma parse_rejects_wrong_ending_witness :
  parse_package_filename "base-dev-1.0.0.tar.bz2" = (None, None).
Proof. apply parse_rejects_wrong_ending; reflexivity. Defined.

(** X6.  A file name in which digits, dot, digits, dot, digits start
    nowhere is not matched. *)
Theorem parse_rejects_missing_version (f : string) :
  (forall a b, f = a ++ b -> ~ token_prefix b) ->
  parse_package_filename f = (None, None).
Proof. apply parse_rejects_without_version. Qed.

Lemma parse_rejects_missing_version_witness :
  parse_package_filename "readme-latest.tar.gz" = (None, None).
Proof.
  apply parse_rejects_missing_version.
  apply no_digit_no_token. reflexivity.
Defined.

(** X7.  The name returned stops at the first dash that is followed by
    digits, dot, digits, dot, digits: past its first character it holds no
    such dash. *)
Theorem parsed_name_has_no_version_dash (f n v : string) :
  parse_package_filename f = (Some n, Some v) ->
  forall a b, a <> "" -> n = a ++ "-" ++ b -> ~ token_prefix b.
Proof.
  intros H a b Ha -> (d1 & d2 & d3 & r & D1 & D2 & D3 & ->).
  apply parse_sound in H as [(_ & Hnl & Hv & tl & Etl & ->) Hmin].
  unfold no_newline in Hnl.
  rewrite all_chars_append in Hnl. apply andb_prop in Hnl as [Hna Hnl].
  simpl in Hnl.
  rewrite all_chars_append in Hnl. apply andb_prop in Hnl as [_ Hnl]. simpl in Hnl.
  rewrite all_chars_append in Hnl. apply andb_prop in Hnl as [_ Hnl]. simpl in Hnl.
  rewrite all_chars_append in Hnl. apply andb_prop in Hnl as [_ Hr].
  apply version_like_no_newline in Hv as Hvn.
  specialize (Hmin a ((d1 ++ "." ++ d2 ++ "." ++ d3 ++ r) ++ "-" ++ v)).
  rewrite !length_append in Hmin. simpl in Hmin.
  enough (String.length a +
          S (String.length d1 + S (String.length d2 + S (String.length d3 + String.length r)))
          <= String.length a) by lia.
  apply Hmin. split; [exact Ha|]. split; [exact Hna|]. split.
  - exists d1, d2, d3, (r ++ "-" ++ v).
    split; [exact D1|]. split; [exact D2|]. split; [exact D3|]. split.
    + unfold no_newline. rewrite all_chars_append, Hr. exact Hvn.
    + now repeat first [rewrite append_assoc | progress cbn [append]].
  - exists tl. split; [exact Etl|].
    now repeat first [rewrite append_assoc | progress cbn [append]].
Qed.

Lemma parsed_name_has_no_version_dash_witness :
  parse_package_filename "x-y-1.2.3-b-4.5.6.tar.gz" = (Some "x-y", Some "1.2.3-b-4.5.6") /\
  (forall a b, a <> "" -> "x-y" = a ++ "-" ++ b -> ~ token_prefix b).
Proof.
  split; [reflexivity|].
  apply (parsed_name_has_no_version_dash "x-y-1.2.3-b-4.5.6.tar.gz" "x-y" "1.2.3-b-4.5.6").
  reflexivity.
Defined.

(** X8.  Parsing is stable under rebuilding: when the parser returns
    [(n, v)], parsing [n ++ "-" ++ v ++ ".tar.gz"] returns [(n, v)] again. *)
Theorem parse_of_rebuilt_name (f n v : string) :
  parse_package_filename f = (Some n, Some v) ->
  parse_package_filename (n ++ "-" ++ v ++ ".tar.gz") = (Some n, Some v).
Proof.
  intros H. apply parse_sound in H as [(Hn & Hnl & Hv & tl & Etl & ->) Hmin].
  apply parse_shortest.
  - split; [exact Hn|]. split; [exact Hnl|]. split; [exact Hv|].
    exists "". split; reflexivity.
  - intros n' v' (Hn' & Hnl' & Hv' & tl' & Etl' & E).
    apply (Hmin n' v'). split; [exact Hn'|]. split; [exact Hnl'|]. split; [exact Hv'|].
    exists tl. split; [exact Etl|].
    assert (E' : (n ++ "-" ++ v) ++ ".tar.gz" ++ "" = (n' ++ "-" ++ v') ++ ".tar.gz" ++ tl').
    { rewrite !append_assoc. exact E. }
    apply tail_unique in E' as [E' _]; [|reflexivity | exact Etl'].
    apply (f_equal (fun s => s ++ ".tar.gz" ++ tl)) in E'.
    now rewrite !append_assoc in E'.
Qed.

Lemma parse_of_rebuilt_name_witness :
  parse_package_filename ("a" ++ "-" ++ "1.0.0" ++ ".tar.gz") = (Some "a", Some "1.0.0").
Proof.
  apply (parse_of_rebuilt_name ("a-1.0.0.tar.gz" ++ String newline "")).
  reflexivity.
Defined.

(* ================================================================== *)
(** ** Further properties of the loop and of [main] *)

Section LoopMore.

Lemma in_versions_for (name v : string) (files : list string) :
  In v (versions_for name (parsed_pairs files)) <->
  exists f, In f files /\ parsed f = Some (name, v).
Proof.
  unfold versions_for, parsed_pairs. rewrite in_map_iff. split.
  - intros ([n' v'] & Ev & Hin). simpl in Ev. subst v'.
    apply filter_In in Hin as [Hin Heq]. simpl in Heq.
    apply String.eqb_eq in Heq. subst n'.
    apply in_flat_map in Hin as (f & Hf & Hp). exists f. split; [exact Hf|].
    destruct (parsed f) as [p|]; [|destruct Hp].
    destruct Hp as [-> | []]. reflexivity.
  - intros (f & Hf & Hp). exists (name, v). split; [reflexivity|].
    apply filter_In. split; [|simpl; apply String.eqb_refl].
    apply in_flat_map. exists f. split; [exact Hf|]. rewrite Hp. now left.
Qed.

Lemma existsb_keys (k : string) (d : dict) :
  existsb (String.eqb k) (keys d) = dict_mem k d.
Proof.
  unfold dict_mem. induction d as [|[k' v'] d IH]; simpl; [reflexivity|].
  destruct (k =? k')%string; [reflexivity | exact IH].
Qed.

Lemma keys_ensure_entry (n v : string) (packages : dict) :
  keys (ensure_entry n v packages) = add_name (keys packages) n.
Proof.
  unfold ensure_entry, add_name. rewrite existsb_keys.
  destruct (dict_mem n packages) eqn:E; [reflexivity|].
  now rewrite keys_dict_set, E.
Qed.

Lemma keys_dict_set_present (k : string) (v w : pyval) (d : dict) :
  dict_get k d = Some w -> keys (dict_set k v d) = keys d.
Proof. intros H. rewrite keys_dict_set. unfold dict_mem. now rewrite H. Qed.

Lemma keys_record_version (n v : string) (packages packages' : dict) :
  record_version n v packages = Some packages' ->
  keys packages' = add_name (keys packages) n.
Proof.
  unfold record_version, append_version, set_latest.
  rewrite <- (keys_ensure_entry n v).
  destruct (dict_get n (ensure_entry n v packages)) as [[| | |e]|] eqn:E1;
    try discriminate.
  destruct (dict_get "versions" e) as [[| |vs|]|]; try discriminate.
  rewrite dict_get_set_same. intros [= <-].
  rewrite (keys_dict_set_present _ _ _ _ (dict_get_set_same _ _ _)).
  now rewrite (keys_dict_set_present _ _ _ _ E1).
Qed.

Lemma run_loop_none (files : list string) :
  fold_left
    (fun acc tarball_name =>
       match acc with
       | Some pk => process pk tarball_name
       | None => None
       end) files None = None.
Proof. induction files as [|f files IH]; simpl; [reflexivity | exact IH]. Qed.

Lemma run_loop_cons (f : string) (files : list string) (packages : dict) :
  run_loop (f :: files) packages =
  match process packages f with
  | Some pk => run_loop files pk
  | None => None
  end.
Proof.
  unfold run_loop. simpl. destruct (process packages f); [reflexivity|].
  apply run_loop_none.
Qed.

Lemma run_loop_insert_unparsed (x : string) (l : list string) :
  parsed x = None ->
  forall packages, run_loop (insert_sorted x l) packages = run_loop l packages.
Proof.
  intros Hx. induction l as [|y l IH]; intros pk; simpl.
  - rewrite run_loop_cons, process_parsed, Hx. reflexivity.
  - destruct (x <=? y)%string.
    + now rewrite run_loop_cons, process_parsed, Hx.
    + rewrite !run_loop_cons. destruct (process pk y); [apply IH | reflexivity].
Qed.

Lemma run_loop_all_unparsed (files : list string) (packages : dict) :
  (forall f, In f files -> parsed f = None) ->
  run_loop files packages = Some packages.
Proof.
  induction files as [|f files IH]; intros H; [reflexivity|].
  rewrite run_loop_cons, process_parsed, (H f) by now left.
  apply IH. intros g Hg. apply H. now right.
Qed.

Lemma parsed_none_iff (f : string) :
  parsed f = None <-> parse_package_filename f = (None, None).
Proof.
  split.
  - intros H. destruct (parse_cases f) as [E | (n & v & E)]; [exact E|].
    apply parsed_iff in E. congruence.
  - intros H. unfold parsed. now rewrite H.
Qed.

Lemma in_sorted_glob (f : string) (entries : list string) :
  In f (sorted (glob_tar_gz entries)) <->
  In f entries /\ ends_with ".tar.gz" f = true.
Proof.
  unfold glob_tar_gz. rewrite <- filter_In. split.
  - apply Permutation_in, sorted_perm.
  - apply Permutation_in, Permutation_sym, sorted_perm.
Qed.





Lemma parsed_pairs_cons (f : string) (files : list string) :
  parsed_pairs (f :: files) =
  (match parsed f with Some p => [p] | None => [] end ++ parsed_pairs files)%list.
Proof. reflexivity. Qed.

Lemma parsed_pairs_app (files more : list string) :
  parsed_pairs (files ++ more) = (parsed_pairs files ++ parsed_pairs more)%list.
Proof. unfold parsed_pairs. apply flat_map_app. Qed.

Lemma run_loop_keys (files : list string) :
  forall packages,
    run_loop files [] = Some packages ->
    keys packages = first_seen (map fst (parsed_pairs files)).
Proof.
  induction files as [|f files IH] using rev_ind; intros pk Hrun.
  - injection Hrun as <-. reflexivity.
  - rewrite run_loop_snoc in Hrun.
    destruct (run_loop files []) as [pk0|]; [|discriminate].
    rewrite process_parsed in Hrun.
    rewrite parsed_pairs_snoc, map_app. unfold first_seen. rewrite fold_left_app.
    fold (first_seen (map fst (parsed_pairs files))). rewrite <- (IH pk0 eq_refl).
    destruct (parsed f) as [[n v]|].
    + simpl. now apply keys_record_version in Hrun.
    + injection Hrun as <-. reflexivity.
Qed.

(** Two archives of a directory never stand for the same name and
    version. *)
Lemma parsed_injective (f g n v : string) :
  ends_with ".tar.gz" f = true -> ends_with ".tar.gz" g = true ->
  parsed f = Some (n, v) -> parsed g = Some (n, v) -> f = g.
Proof.
  intros Ef Eg Hf Hg. apply parsed_iff in Hf, Hg.
  rewrite (parse_round_trip_tar_gz f n v Ef Hf).
  now rewrite (parse_round_trip_tar_gz g n v Eg Hg).
Qed.

Lemma versions_nodup (name : string) (files : list string) :
  NoDup files ->
  (forall f, In f files -> ends_with ".tar.gz" f = true) ->
  NoDup (versions_for name (parsed_pairs files)).
Proof.
  induction files as [|f files IH]; intros Hnd Hend; [constructor|].
  inversion Hnd as [|? ? Hnotin Hnd']; subst.
  assert (IH' : NoDup (versions_for name (parsed_pairs files))).
  { apply IH; [exact Hnd'|]. intros g Hg. apply Hend. now right. }
  rewrite parsed_pairs_cons, versions_for_app.
  destruct (parsed f) as [[n v]|] eqn:Ef; [|exact IH'].
  destruct (String.eqb_spec name n) as [-> | Hne].
  - rewrite versions_for_one_same. simpl. constructor; [|exact IH'].
    intros Hin. apply in_versions_for in Hin as (g & Hg & Eg).
    apply Hnotin.
    rewrite (parsed_injective f g n v); try assumption.
    + apply Hend. now left.
    + apply Hend. now right.
  - now rewrite versions_for_one_other.
Qed.


End LoopMore.

(** X9.  When the loop ends, a name is a key of [packages] exactly when
    some archive processed was parsed to that name. *)
Theorem registry_names_are_parsed_names
        (files : list string) (packages : dict) (name : string) :
  run_loop files [] = Some packages ->
  (dict_mem name packages = true <->
   exists f v, In f files /\ parse_package_filename f = (Some name, Some v)).
Proof.
  intros Hrun.
  destruct (run_loop_reflects files) as (pk & Hrun' & Hrefl & _).
  rewrite Hrun in Hrun'. injection Hrun' as <-.
  unfold dict_mem. rewrite (Hrefl name). split.
  - destruct (versions_for name (parsed_pairs files)) as [|v vs] eqn:Ev; [discriminate|].
    intros _. assert (Hin : In v (versions_for name (parsed_pairs files)))
      by (rewrite Ev; now left).
    apply in_versions_for in Hin as (f & Hf & Hp). apply parsed_iff in Hp.
    now exists f, v.
  - intros (f & v & Hf & Hp). apply parsed_iff in Hp.
    assert (Hin : In v (versions_for name (parsed_pairs files)))
      by (apply in_versions_for; now exists f).
    destruct (versions_for name (parsed_pairs files)); [destruct Hin | reflexivity].
Qed.

Lemma registry_names_are_parsed_names_witness :
  dict_mem "tools" [("base-dev", entry_of ["1.0.0"]); ("tools", entry_of ["0.9.1"])] = true <->
  exists f v,
    In f ["base-dev-1.0.0.tar.gz"; "notes.tar.gz"; "tools-0.9.1.tar.gz"] /\
    parse_package_filename f = (Some "tools", Some v).
Proof.
  apply (registry_names_are_parsed_names
           ["base-dev-1.0.0.tar.gz"; "notes.tar.gz"; "tools-0.9.1.tar.gz"]).
  reflexivity.
Defined.

(** X10.  The keys of [packages], which [json.dumps] writes in this order,
    are the names parsed from the archives, each once, in the order in
    which they are first met. *)
Theorem registry_keys_in_order_of_first_archive
        (files : list string) (packages : dict) :
  run_loop files [] = Some packages ->
  keys packages = first_seen (map fst (parsed_pairs files)) /\
  NoDup (keys packages).
Proof.
  intros Hrun. split; [now apply run_loop_keys|].
  destruct (run_loop_reflects files) as (pk & Hrun' & _ & Hnd).
  rewrite Hrun in Hrun'. now injection Hrun' as <-.
Qed.

Lemma registry_keys_in_order_of_first_archive_witness :
  keys [("b", entry_of ["2.0.0"; "2.1.0"]); ("a", entry_of ["1.0.0"])]
  = first_seen (map fst (parsed_pairs
      ["b-2.0.0.tar.gz"; "a-1.0.0.tar.gz"; "b-2.1.0.tar.gz"])) /\
  NoDup (keys [("b", entry_of ["2.0.0"; "2.1.0"]); ("a", entry_of ["1.0.0"])]).
Proof.
  apply (registry_keys_in_order_of_first_archive
           ["b-2.0.0.tar.gz"; "a-1.0.0.tar.gz"; "b-2.1.0.tar.gz"]).
  reflexivity.
Defined.

(** X11.  A directory entry that [glob] does not select, or that the
    parser does not match, changes nothing: wherever it is listed, [main]
    prints what it prints without it. *)
Theorem main_ignores_other_entries (before after : list string) (x : string) :
  ends_with ".tar.gz" x = false \/ parse_package_filename x = (None, None) ->
  main (Some (before ++ x :: after)%list) = main (Some (before ++ after)%list).
Proof.
  intros H. unfold main.
  rewrite (packages_of_permutation (before ++ x :: after)%list (x :: before ++ after)%list)
    by (symmetry; apply Permutation_middle).
  enough (E : packages_of (x :: before ++ after)%list = packages_of (before ++ after)%list)
    by now rewrite E.
  unfold packages_of, glob_tar_gz. simpl.
  destruct (ends_with ".tar.gz" x) eqn:Ex; [|reflexivity].
  destruct H as [H | H]; [discriminate|].
  simpl. apply run_loop_insert_unparsed. now apply parsed_none_iff.
Qed.

Lemma main_ignores_other_entries_witness :
  main (Some (["b-2.0.0.tar.gz"] ++ "readme.tar.gz" :: ["a-1.0.0.tar.gz"])%list)
  = main (Some (["b-2.0.0.tar.gz"] ++ ["a-1.0.0.tar.gz"])%list).
Proof.
  apply main_ignores_other_entries. right. reflexivity.
Defined.

(** X12.  In a directory, whose entries have distinct names, no version is
    listed twice for a package: two different archive names never give the
    same name and version. *)
Theorem versions_are_distinct
        (entries : list string) (packages : dict) (name : string) (e : pyval) :
  NoDup entries ->
  packages_of entries = Some packages ->
  dict_get name packages = Some e ->
  exists vs, field "versions" e = Some (PList (map PStr vs)) /\ NoDup vs.
Proof.
  unfold packages_of. intros Hnd Hrun Hget.
  destruct (run_loop_entry _ _ _ _ Hrun Hget) as [_ ->].
  eexists. split; [apply field_versions_entry_of|].
  apply versions_nodup.
  - apply (Permutation_NoDup (l := glob_tar_gz entries)).
    + symmetry. apply sorted_perm.
    + now apply NoDup_filter.
  - intros f Hf. now apply in_sorted_glob in Hf.
Qed.

Lemma versions_are_distinct_witness :
  exists vs,
    field "versions" (entry_of ["1.0.0"; "1.2.0"]) = Some (PList (map PStr vs)) /\
    NoDup vs.
Proof.
  apply (versions_are_distinct
           ["tools-0.9.1.tar.gz"; "base-dev-1.2.0.tar.gz"; "base-dev-1.0.0.tar.gz"]
           [("base-dev", entry_of ["1.0.0"; "1.2.0"]); ("tools", entry_of ["0.9.1"])]
           "base-dev").
  - repeat constructor; simpl; intuition discriminate.
  - reflexivity.
  - reflexivity.
Defined.



(** X14.  Processing more archives only appends: the versions listed for
    a name after some archives are a prefix of those listed after any
    further ones, and the name stays in the dictionary. *)
Theorem versions_only_grow
        (files more : list string) (packages : dict) (name : string) (e : pyval) :
  run_loop files [] = Some packages ->
  dict_get name packages = Some e ->
  exists vs extra packages' e',
    field "versions" e = Some (PList (map PStr vs)) /\
    run_loop (files ++ more)%list [] = Some packages' /\
    dict_get name packages' = Some e' /\
    field "versions" e' = Some (PList (map PStr (vs ++ extra)%list)).
Proof.
  intros Hrun Hget.
  destruct (run_loop_entry _ _ _ _ Hrun Hget) as [Hne ->].
  destruct (run_loop_reflects (files ++ more)%list) as (pk' & Hrun' & Hrefl & _).
  exists (versions_for name (parsed_pairs files)),
         (versions_for name (parsed_pairs more)), pk',
         (entry_of (versions_for name (parsed_pairs files)
                    ++ versions_for name (parsed_pairs more))%list).
  split; [apply field_versions_entry_of|]. split; [exact Hrun'|].
  split; [|apply field_versions_entry_of].
  rewrite (Hrefl name), parsed_pairs_app, versions_for_app.
  destruct (versions_for name (parsed_pairs files)); [congruence | reflexivity].
Qed.

Lemma versions_only_grow_witness :
  exists vs extra packages' e',
    field "versions" (entry_of ["1.0.0"]) = Some (PList (map PStr vs)) /\
    run_loop (["a-1.0.0.tar.gz"] ++ ["b-2.0.0.tar.gz"; "a-1.1.0.tar.gz"])%list []
      = Some packages' /\
    dict_get "a" packages' = Some e' /\
    field "versions" e' = Some (PList (map PStr (vs ++ extra)%list)).
Proof.
  apply (versions_only_grow ["a-1.0.0.tar.gz"] ["b-2.0.0.tar.gz"; "a-1.1.0.tar.gz"]
           [("a", entry_of ["1.0.0"])] "a").
  - reflexivity.
  - reflexivity.
Defined.

(** X15.  When none of the entries that [glob] selects is matched by the
    parser, [main] prints the registry without packages, as it does for a
    missing directory. *)
Theorem unparsed_archives_empty_registry (entries : list string) :
  (forall f, In f entries -> ends_with ".tar.gz" f = true ->
             parse_package_filename f = (None, None)) ->
  main (Some entries) = Some empty_registry_text.
Proof.
  intros H. unfold main, packages_of.
  rewrite run_loop_all_unparsed; [reflexivity|].
  intros f Hf. apply in_sorted_glob in Hf as [Hin Hend].
  apply parsed_none_iff. now apply H.
Qed.

Lemma unparsed_archives_empty_registry_witness :
  main (Some ["readme.tar.gz"; "pkg-1.0.tar.gz"; "notes.txt"]) = Some empty_registry_text.
Proof.
  apply unparsed_archives_empty_registry.
  intros f [<- | [<- | [<- | []]]] _; reflexivity.
Defined.
